(** * The update check of web/src/hooks/useVersionCheck.tsx

    A shallow embedding of [isNewerVersion] and of the [useVersionCheck]
    hook, with the properties of the version order and of the hook's
    observable state.

    Strings are sequences of UTF-16 code units, as in the language of the
    source; numbers are the Number values the code can produce: integers
    that binary64 represents, the two infinities, NaN and the negative
    zero. *)

From Stdlib Require Import ZArith NArith Bool Ascii String Lia.
From stdpp Require Import base tactics option list.

Local Open Scope Z_scope.

(** ** Strings *)

Module Str.

(** A string of the source language: its UTF-16 code units. *)
Abbreviation jsstring := (list N).

(** The literal [s], character by character. *)
Definition js (s : string) : jsstring :=
  map N_of_ascii (list_ascii_of_string s).
Arguments js : simpl never.

Definition DOT : N := 46%N.
Definition LOWER_V : N := 118%N.
Definition MINUS : N := 45%N.
Definition PLUS : N := 43%N.

(** WhiteSpace and LineTerminator code units, the ones [parseInt] skips
    at the start of its argument. *)
Definition white_space : list N :=
  [9; 10; 11; 12; 13; 32; 160; 5760;
   8192; 8193; 8194; 8195; 8196; 8197; 8198; 8199; 8200; 8201; 8202;
   8232; 8233; 8239; 8287; 12288; 65279]%N.

Definition is_white_space (c : N) : bool :=
  existsb (N.eqb c) white_space.

Fixpoint trim_start (s : jsstring) : jsstring :=
  match s with
  | c :: s' => if is_white_space c then trim_start s' else s
  | [] => []
  end.

(** [v.replace(/^v/, '')]: the pattern is anchored and not global, so at
    most the first code unit goes. *)
Definition replace_leading_v (v : jsstring) : jsstring :=
  match v with
  | c :: rest => if (c =? LOWER_V)%N then rest else v
  | [] => []
  end.

(** [s.split(sep)] for a separator of one code unit: never empty, the
    empty string gives one empty piece. *)
Fixpoint split (sep : N) (s : jsstring) : list jsstring :=
  match s with
  | [] => [[]]
  | c :: s' =>
      if (c =? sep)%N then [] :: split sep s'
      else match split sep s' with
           | piece :: pieces => (c :: piece) :: pieces
           | [] => [[c]]
           end
  end.

(** The longest prefix of [s] whose code units satisfy [p]. *)
Fixpoint prefix_while (p : N -> bool) (s : jsstring) : jsstring :=
  match s with
  | c :: s' => if p c then c :: prefix_while p s' else []
  | [] => []
  end.

End Str.
Import Str.

(** ** Numbers *)

Module Num.

(** Number values. [Fin z] is the finite integer [z] ([Fin 0] is the
    positive zero); the code never produces a fraction. *)
Inductive number :=
| NaN
| NegZero
| Fin (z : Z)
| PosInf
| NegInf.

(** What a binding can hold after the array destructuring. *)
Inductive value :=
| Undefined
| Num (x : number).

(** The Number value for a mathematical integer [n >= 0]: the nearest
    binary64 value, ties to the even significand. Below [2^53] every
    integer is its own Number value. *)
Definition round_to_double (n : Z) : Z :=
  if n <? 2 ^ 53 then n
  else
    let e := Z.log2 n - 52 in
    let q := Z.shiftr n e in
    let r := n - Z.shiftl q e in
    let half := 2 ^ (e - 1) in
    let q' := if (half <? r) || ((r =? half) && Z.odd q) then q + 1 else q in
    Z.shiftl q' e.

Definition number_of_integer (m : Z) : number :=
  let r := round_to_double (Z.abs m) in
  if 2 ^ 1024 <=? r then (if m <? 0 then NegInf else PosInf)
  else Fin (Z.sgn m * r).

(** The value of a digit in radixes up to 36. *)
Definition digit_value (c : N) : option Z :=
  if ((48 <=? c) && (c <=? 57))%N then Some (Z.of_N c - 48)
  else if ((97 <=? c) && (c <=? 122))%N then Some (Z.of_N c - 87)
  else if ((65 <=? c) && (c <=? 90))%N then Some (Z.of_N c - 55)
  else None.

Definition is_radix_digit (R : Z) (c : N) : bool :=
  match digit_value c with
  | Some d => d <? R
  | None => false
  end.

Definition math_int (R : Z) (digits : jsstring) : Z :=
  fold_left (fun acc c => acc * R + default 0 (digit_value c)) digits 0.

(** [0x] or [0X] at the start: with radix 16 or no radix it is dropped
    and the digits are read in radix 16. *)
Definition strip_hex_prefix (s : jsstring) : jsstring :=
  match s with
  | 48%N :: x :: rest => if ((x =? 120) || (x =? 88))%N then rest else s
  | _ => s
  end.

Definition has_hex_prefix (s : jsstring) : bool :=
  match s with
  | 48%N :: x :: _ => ((x =? 120) || (x =? 88))%N
  | _ => false
  end.

(** [parseInt(string, radix)] on a string argument and an integer radix:
    skip the white space, take the sign, keep the longest prefix of
    digits, NaN when it is empty. The digits are read exactly (an engine
    may replace the decimal digits after the twentieth by zeros; no
    statement below has a component that long). *)
Definition parseInt (s : jsstring) (radix : Z) : number :=
  let S := trim_start s in
  let negative := match S with c :: _ => (c =? MINUS)%N | [] => false end in
  let S := match S with
           | c :: rest => if ((c =? MINUS) || (c =? PLUS))%N then rest else S
           | [] => []
           end in
  if (radix =? 0) || ((2 <=? radix) && (radix <=? 36)) then
    let hex := ((radix =? 0) || (radix =? 16)) && has_hex_prefix S in
    let R := if hex then 16 else if radix =? 0 then 10 else radix in
    let S := if hex then strip_hex_prefix S else S in
    match prefix_while (is_radix_digit R) S with
    | [] => NaN
    | digits =>
        let m := math_int R digits in
        if m =? 0 then (if negative then NegZero else Fin 0)
        else number_of_integer (if negative then - m else m)
    end
  else NaN.

(** ToBoolean on a Number: NaN and both zeros are falsy. *)
Definition to_boolean (x : number) : bool :=
  match x with
  | NaN | NegZero => false
  | Fin z => negb (z =? 0)
  | PosInf | NegInf => true
  end.

(** ToNumber on a binding: [undefined] becomes NaN. *)
Definition to_number (v : value) : number :=
  match v with
  | Undefined => NaN
  | Num x => x
  end.

Definition finite_part (x : number) : Z :=
  match x with
  | Fin z => z
  | _ => 0
  end.

(** Number::equal. *)
Definition number_equal (x y : number) : bool :=
  match x, y with
  | NaN, _ | _, NaN => false
  | PosInf, PosInf | NegInf, NegInf => true
  | PosInf, _ | _, PosInf | NegInf, _ | _, NegInf => false
  | _, _ => finite_part x =? finite_part y
  end.

(** Number::lessThan, with its undefined answer (a NaN operand) as
    [None]. *)
Definition number_less_than (x y : number) : option bool :=
  match x, y with
  | NaN, _ | _, NaN => None
  | PosInf, _ => Some false
  | _, PosInf => Some true
  | _, NegInf => Some false
  | NegInf, _ => Some true
  | _, _ => Some (finite_part x <? finite_part y)
  end.

(** [a !== b]: values of different types are unequal. *)
Definition strict_not_equal (a b : value) : bool :=
  match a, b with
  | Undefined, Undefined => false
  | Num x, Num y => negb (number_equal x y)
  | _, _ => true
  end.

(** [a > b]: is [b] less than [a], an undefined answer counting as
    false. *)
Definition greater_than (a b : value) : bool :=
  default false (number_less_than (to_number b) (to_number a)).

End Num.
Import Num.

(** ** isNewerVersion *)

(** The callback [n => parseInt(n, 10) || 0]. *)
Definition component (n : jsstring) : number :=
  let x := parseInt n 10 in
  if to_boolean x then x else Fin 0.

(** The inner [parse]: strip the leading [v], split on the dot, and read
    every piece with the callback. *)
Definition parse (v : jsstring) : list number :=
  map component (split DOT (replace_leading_v v)).

(** [const [x0, x1, x2] = l]: a position past the end binds [undefined]. *)
Definition element (l : list number) (i : nat) : value :=
  match l !! i with
  | Some x => Num x
  | None => Undefined
  end.

Definition isNewerVersion (a b : jsstring) : bool :=
  let pa := parse a in
  let pb := parse b in
  let aMajor := element pa 0 in
  let aMinor := element pa 1 in
  let aPatch := element pa 2 in
  let bMajor := element pb 0 in
  let bMinor := element pb 1 in
  let bPatch := element pb 2 in
  if strict_not_equal aMajor bMajor then greater_than aMajor bMajor
  else if strict_not_equal aMinor bMinor then greater_than aMinor bMinor
  else greater_than aPatch bPatch.

(** ** Version strings of the accepted grammar *)

Definition is_decimal_digit (c : N) : bool := ((48 <=? c) && (c <=? 57))%N.

(** A numeric component: one decimal digit or more. *)
Definition numeric (d : jsstring) : bool :=
  match d with
  | [] => false
  | _ => forallb is_decimal_digit d
  end.

(** The integer a string of decimal digits denotes. *)
Definition decimal (d : jsstring) : Z :=
  fold_left (fun acc c => 10 * acc + (Z.of_N c - 48)) d 0.

(** [major.minor.patch], after a [v] when [prefixed]. *)
Definition version_string (prefixed : bool) (major minor patch : jsstring) : jsstring :=
  (if prefixed then [LOWER_V] else []) ++ major ++ DOT :: minor ++ DOT :: patch.

(** The strict lexicographic order of integer triples. *)
Definition triple_gt (x y : Z * Z * Z) : Prop :=
  let '(x1, x2, x3) := x in
  let '(y1, y2, y3) := y in
  x1 > y1 \/ (x1 = y1 /\ (x2 > y2 \/ (x2 = y2 /\ x3 > y3))).

(** [Number.MAX_SAFE_INTEGER + 1]: below it a Number holds every integer
    exactly. *)
Definition SAFE_LIMIT : Z := 2 ^ 53.

(** A component the code reads exactly. *)
Definition safe_component (d : jsstring) : Prop :=
  numeric d = true /\ decimal d < SAFE_LIMIT.

(** A string without a single decimal digit, such as [abc]. *)
Definition has_no_digit (s : jsstring) : bool :=
  forallb (fun c => negb (is_decimal_digit c)) s.

(** ** The hook: payloads, errors and the observable state *)

Module Hook.

(** A parsed JSON payload, the result of [response.json()]. A number keeps
    its literal text: the hook never reads it. *)
#[warnings="-register-all"] Inductive json :=
| JNull
| JBool (b : bool)
| JNumber (literal : jsstring)
| JString (s : jsstring)
| JArray (items : list json)
| JObject (members : list (jsstring * json)).

(** A thrown value, as far as the [catch] block looks at it. *)
Record thrown := Thrown { name : jsstring; message : jsstring }.

(** The outcome of evaluating a piece of the [try] block. *)
Inductive completion (A : Type) :=
| Normal (a : A)
| Throw (e : thrown).
Arguments Normal {A} a.
Arguments Throw {A} e.

#[global] Instance completion_bind : MBind completion := fun A B k c =>
  match c with
  | Normal a => k a
  | Throw e => Throw e
  end.

(** How a promise settles. *)
Inductive settled (A : Type) :=
| Fulfilled (a : A)
| Rejected (e : thrown).
Arguments Fulfilled {A} a.
Arguments Rejected {A} e.

(** The part of a [Response] the hook reads. *)
Record response := Response { status : Z; statusText : jsstring }.

(** [response.ok]: a status from 200 to 299. *)
Definition ok (r : response) : bool := (200 <=? status r) && (status r <=? 299).

(** [interface VersionInfo]. At run time [latestVersion] holds whatever
    the payload carried under [tag_name]; [JNull] is [null]. *)
Record VersionInfo := {
  latestVersion : json;
  currentVersion : option jsstring;
  updateAvailable : bool;
  loading : bool;
  error : option jsstring
}.

(** The argument of [useState]. *)
Definition initial_state (currentVersion : option jsstring) : VersionInfo :=
  {| latestVersion := JNull;
     currentVersion := currentVersion;
     updateAvailable := false;
     loading := true;
     error := None |}.

(** The engine's wording of its TypeErrors (V8's here); the hook copies it
    into [error] and nothing else depends on it. *)
Definition type_error (text : string) : thrown :=
  {| name := js "TypeError"; message := js text |}.

(** The last member named [key]: [JSON.parse] lets a later duplicate
    win. *)
Definition member (key : jsstring) (members : list (jsstring * json)) : option json :=
  fold_left (fun found kv => if bool_decide (kv.1 = key) then Some kv.2 else found)
            members None.

(** [data.tag_name]: [None] is [undefined]. Reading a property of [null]
    throws; strings, numbers, booleans and arrays have no such property. *)
Definition tag_name (data : json) : completion (option json) :=
  match data with
  | JNull => Throw (type_error "Cannot read properties of null (reading 'tag_name')")
  | JObject members => Normal (member (js "tag_name") members)
  | _ => Normal None
  end.

(** [x ?? null]. *)
Definition or_null (x : option json) : json :=
  match x with
  | Some v => v
  | None => JNull
  end.

(** The call [isNewerVersion(latestVersion, currentVersion)] on the value
    the payload carried: only a string has a [replace] method. *)
Definition call_isNewerVersion (a : json) (b : jsstring) : completion bool :=
  match a with
  | JString s => Normal (isNewerVersion s b)
  | JNull => Throw (type_error "Cannot read properties of null (reading 'replace')")
  | _ => Throw (type_error "v.replace is not a function")
  end.

(** [latestVersion !== null && currentVersion !== null &&
    isNewerVersion(latestVersion, currentVersion)], left to right. *)
Definition update_available (latest : json) (current : option jsstring) : completion bool :=
  match latest with
  | JNull => Normal false
  | _ => match current with
         | None => Normal false
         | Some c => call_isNewerVersion latest c
         end
  end.

(** Lines 48 to 50: a response that is not ok throws. *)
Definition check_ok (r : response) : completion unit :=
  if ok r then Normal tt
  else Throw {| name := js "Error";
                message := js "Version check failed: " ++ statusText r |}.

(** Lines 52 to 65: the state the [try] block sets from the payload. *)
Definition resolved_state (currentVersion : option jsstring) (data : json)
  : completion VersionInfo :=
  tag ← tag_name data;
  let latest := or_null tag in
  available ← update_available latest currentVersion;
  Normal {| latestVersion := latest;
            currentVersion := currentVersion;
            updateAvailable := available;
            loading := false;
            error := None |}.

(** The state the updater of the [catch] block returns. *)
Definition failed_state (prev : VersionInfo) (err : thrown) : VersionInfo :=
  {| latestVersion := latestVersion prev;
     currentVersion := currentVersion prev;
     updateAvailable := updateAvailable prev;
     loading := false;
     error := Some (message err) |}.

(** The [catch] block: [None] when it returns without a [setState]. *)
Definition catch (err : thrown) (prev : VersionInfo) : option VersionInfo :=
  if bool_decide (name err = js "AbortError") then None
  else Some (failed_state prev err).

(** ** The hook as a transition system *)

(** Where the [checkVersion] call of one effect run stands. *)
Inductive phase :=
| Fetching       (* awaiting [fetch] *)
| ReadingBody    (* awaiting [response.json()] *)
| Finished.

(** One effect run: the [currentVersion] its closure captured, whether its
    controller was aborted, and the progress of its request. *)
Record request := {
  version : option jsstring;
  aborted : bool;
  stage : phase
}.

Definition fresh_request (currentVersion : option jsstring) : request :=
  {| version := currentVersion; aborted := false; stage := Fetching |}.

Definition abort (q : request) : request :=
  {| version := version q; aborted := true; stage := stage q |}.

Definition at_stage (p : phase) (q : request) : request :=
  {| version := version q; aborted := aborted q; stage := p |}.

(** A mounted or unmounted instance of the hook. [requests] lists the
    effect runs in order, one [fetch] each, the last one being the run
    whose cleanup is pending; [writes] counts the [setState] calls. *)
Record hook := {
  state : VersionInfo;
  rendered : option jsstring;
  mounted : bool;
  requests : list request;
  writes : nat
}.

Inductive event :=
| Render (currentVersion : option jsstring)
| Unmount
| FetchSettles (id : nat) (r : settled response)
| BodySettles (id : nat) (r : settled json).

(** The first render and its effect. *)
Definition mount (currentVersion : option jsstring) : hook :=
  {| state := initial_state currentVersion;
     rendered := currentVersion;
     mounted := true;
     requests := [fresh_request currentVersion];
     writes := 0 |}.

(** The cleanup [() => controller.abort()] of the last effect run. *)
Definition cleanup (rs : list request) : list request :=
  alter abort (length rs - 1)%nat rs.

(** A later render. The effect runs again only when the dependency
    [currentVersion] changed: the old run is cleaned up and a new one
    started. The state cell is left as it is. *)
Definition render (currentVersion : option jsstring) (h : hook) : hook :=
  if bool_decide (currentVersion = rendered h) then h
  else {| state := state h;
          rendered := currentVersion;
          mounted := true;
          requests := cleanup (requests h) ++ [fresh_request currentVersion];
          writes := writes h |}.

Definition unmount (h : hook) : hook :=
  {| state := state h;
     rendered := rendered h;
     mounted := false;
     requests := cleanup (requests h);
     writes := writes h |}.

(** A rejection with the [AbortError] the platform raises on [abort()]. *)
Definition is_abort_error {A} (r : settled A) : bool :=
  match r with
  | Rejected e => bool_decide (name e = js "AbortError")
  | Fulfilled _ => false
  end.

(** A promise whose signal was aborted settles by that rejection and in no
    other way, and no other promise settles by it. *)
Definition may_settle {A} (q : request) (r : settled A) : bool :=
  eqb (aborted q) (is_abort_error r).

(** The run [id] moves to phase [p]; [update] is the [setState] it makes,
    if any. *)
Definition advance (id : nat) (p : phase) (update : option VersionInfo) (h : hook) : hook :=
  {| state := default (state h) update;
     rendered := rendered h;
     mounted := mounted h;
     requests := alter (at_stage p) id (requests h);
     writes := match update with Some _ => S (writes h) | None => writes h end |}.

(** [checkVersion] resumed after [await fetch(...)]. *)
Definition fetch_settles (id : nat) (r : settled response) (h : hook) : hook :=
  match r with
  | Rejected e => advance id Finished (catch e (state h)) h
  | Fulfilled resp =>
      match check_ok resp with
      | Throw e => advance id Finished (catch e (state h)) h
      | Normal _ => advance id ReadingBody None h
      end
  end.

(** [checkVersion] resumed after [await response.json()]. *)
Definition body_settles (id : nat) (q : request) (r : settled json) (h : hook) : hook :=
  match r with
  | Rejected e => advance id Finished (catch e (state h)) h
  | Fulfilled data =>
      match resolved_state (version q) data with
      | Throw e => advance id Finished (catch e (state h)) h
      | Normal s => advance id Finished (Some s) h
      end
  end.

(** One event; [None] when the event cannot happen in [h]. A completion
    and the continuation of [checkVersion] that it resumes are one step:
    the continuation runs as a microtask right after the promise settles,
    before any render or cleanup. *)
Definition step (h : hook) (ev : event) : option hook :=
  match ev with
  | Render cv => if mounted h then Some (render cv h) else None
  | Unmount => if mounted h then Some (unmount h) else None
  | FetchSettles id r =>
      match requests h !! id with
      | Some q =>
          match stage q with
          | Fetching => if may_settle q r then Some (fetch_settles id r h) else None
          | _ => None
          end
      | None => None
      end
  | BodySettles id r =>
      match requests h !! id with
      | Some q =>
          match stage q with
          | ReadingBody => if may_settle q r then Some (body_settles id q r h) else None
          | _ => None
          end
      | None => None
      end
  end.

Fixpoint run (h : hook) (trace : list event) : option hook :=
  match trace with
  | [] => Some h
  | ev :: rest =>
      match step h ev with
      | Some h' => run h' rest
      | None => None
      end
  end.

(** The states an instance can be in. *)
Definition reachable (h : hook) : Prop :=
  exists currentVersion trace, run (mount currentVersion) trace = Some h.

(** ** Notions the statements below use *)

(** A run that can no longer write the state: its controller was aborted
    or its [checkVersion] call returned. *)
Definition dead (q : request) : bool :=
  aborted q || match stage q with Finished => true | _ => false end.

(** At most the last effect run is alive, and only while mounted. *)
Definition one_live (h : hook) : Prop :=
  forall i q, requests h !! i = Some q -> dead q = false ->
    mounted h = true /\ S i = length (requests h).

(** An unmounted instance with nothing alive. *)
Definition silent (h : hook) : Prop :=
  mounted h = false /\ Forall (fun q => dead q = true) (requests h).

(** What resuming [checkVersion] for the run [q] can do in [h]: the
    [setState] it makes, if any, and the phase it moves to. *)
Inductive outcome (h : hook) (q : request) : option VersionInfo -> phase -> Prop :=
| outcome_discarded :
    aborted q = true ->
    outcome h q None Finished
| outcome_reading :
    aborted q = false -> stage q = Fetching ->
    outcome h q None ReadingBody
| outcome_failed e :
    aborted q = false -> name e <> js "AbortError" ->
    outcome h q (Some (failed_state (state h) e)) Finished
| outcome_resolved data s :
    aborted q = false -> stage q = ReadingBody ->
    resolved_state (version q) data = Normal s ->
    outcome h q (Some s) Finished.

Definition is_settle (ev : event) : bool :=
  match ev with
  | FetchSettles _ _ | BodySettles _ _ => true
  | _ => false
  end.

(** The completions that resume the run [n]. *)
Definition settles (n : nat) (ev : event) : bool :=
  match ev with
  | FetchSettles id _ | BodySettles id _ => Nat.eqb id n
  | _ => false
  end.

(** Two instances that agree on what the run [n] can see and do. *)
Definition same_latest (n : nat) (h1 h2 : hook) : Prop :=
  state h1 = state h2 /\ writes h1 = writes h2 /\
  requests h1 !! n = requests h2 !! n.

(** A trace of network completions only: no render, no unmount. *)
Definition only_settles (trace : list event) : Prop :=
  forallb is_settle trace = true.

Definition renders_null (ev : event) : bool :=
  match ev with
  | Render (Some _) => false
  | _ => true
  end.

(** A trace whose renders all pass [currentVersion = null]. *)
Definition null_only (trace : list event) : Prop :=
  forallb renders_null trace = true.

(** No update reported, and [currentVersion = null] in every effect
    run. *)
Definition all_null (h : hook) : Prop :=
  updateAvailable (state h) = false /\
  Forall (fun q => version q = None) (requests h).

(** Where the instance stands after the re-activation of [h0] with
    [cv]: the runs of [h0] are dead, and the new run either is still under
    way, with the state and the write count of [h0], or has made the one
    write that set [loading] to false. *)
Definition superseding (h0 : hook) (cv : option jsstring) (h : hook) : Prop :=
  mounted h = true /\
  length (requests h) = S (length (requests h0)) /\
  (forall i q, requests h !! i = Some q -> (i < length (requests h0))%nat -> dead q = true) /\
  exists q,
    requests h !! length (requests h0) = Some q /\
    version q = cv /\ aborted q = false /\
    match stage q with
    | Finished =>
        writes h = S (writes h0) /\ loading (state h) = false /\
        ((exists data, resolved_state cv data = Normal (state h)) \/
         (exists e, state h = failed_state (state h0) e))
    | _ => writes h = writes h0 /\ state h = state h0
    end.

(** The relation between the three version fields of a state. *)
Definition consistent (s : VersionInfo) : Prop :=
  updateAvailable s = true <->
  latestVersion s <> JNull /\
  exists c, currentVersion s = Some c /\
            call_isNewerVersion (latestVersion s) c = Normal true.

End Hook.
Import Hook.

(** ** Sample traffic *)

Module Sample.

Definition OK_RESPONSE : response :=
  {| status := 200; statusText := js "OK" |}.

Definition SERVER_ERROR : response :=
  {| status := 500; statusText := js "Internal Server Error" |}.

(** A payload whose only member is [tag_name], with the value [tag]. *)
Definition release (tag : string) : json :=
  JObject [(js "tag_name", JString (js tag))].

(** What [fetch] rejects with after [controller.abort()]. *)
Definition ABORT_ERROR : thrown :=
  {| name := js "AbortError"; message := js "The operation was aborted." |}.

(** What [fetch] rejects with when the network fails. *)
Definition NETWORK_ERROR : thrown :=
  {| name := js "TypeError"; message := js "Failed to fetch" |}.

End Sample.
Import Sample.

(** ** Notions for the further properties *)

(** [pieces.join(sep)] for a separator of one code unit. *)
Fixpoint join (sep : N) (pieces : list jsstring) : jsstring :=
  match pieces with
  | [] => []
  | [piece] => piece
  | piece :: rest => piece ++ sep :: join sep rest
  end.

(** How often the code unit [c] occurs in [s]. *)
Fixpoint occurrences (c : N) (s : jsstring) : nat :=
  match s with
  | [] => 0
  | x :: s' => if (x =? c)%N then S (occurrences c s') else occurrences c s'
  end.

(** A Number other than NaN and the negative zero. *)
Definition is_proper (x : number) : bool :=
  match x with
  | NaN | NegZero => false
  | _ => true
  end.

(** What may follow the digits of a component without changing what
    [parseInt] reads: nothing, or text that does not start with a digit. *)
Definition no_digit_ahead (t : jsstring) : bool :=
  match t with
  | [] => true
  | c :: _ => negb (is_decimal_digit c)
  end.

(** What the completions of one run, in the order they arrive, make of the
    state [prev] and of the write count [w], once the run awaits
    [response.json()]: nothing yet, the failed state for a rejection or
    for a payload the [try] block throws on, the state computed from the
    payload otherwise. No other sequence of completions is possible. *)
Definition body_answer (cv : option jsstring) (prev : VersionInfo) (w : nat)
    (events : list event) (s : VersionInfo) (w' : nat) : Prop :=
  match events with
  | [] => s = prev /\ w' = w
  | [BodySettles _ (Rejected e)] => s = failed_state prev e /\ w' = S w
  | [BodySettles _ (Fulfilled data)] =>
      match resolved_state cv data with
      | Normal s0 => s = s0
      | Throw e => s = failed_state prev e
      end /\ w' = S w
  | _ => False
  end.

(** The same for a run that awaits [fetch]: a rejection or a response
    that is not ok ends it with the failed state, an ok response hands
    over to the reading of the body. *)
Definition fetch_answer (cv : option jsstring) (prev : VersionInfo) (w : nat)
    (events : list event) (s : VersionInfo) (w' : nat) : Prop :=
  match events with
  | [] => s = prev /\ w' = w
  | FetchSettles _ (Rejected e) :: rest =>
      rest = [] /\ s = failed_state prev e /\ w' = S w
  | FetchSettles _ (Fulfilled resp) :: rest =>
      if ok resp then body_answer cv prev w rest s w'
      else rest = [] /\
           s = failed_state prev
                 {| name := js "Error";
                    message := js "Version check failed: " ++ statusText resp |} /\
           w' = S w
  | _ => False
  end.

(** The effect runs a trace of events starts, [current] being the
    dependency of the last run: one for every render that changes it. *)
Fixpoint activations (current : option jsstring) (trace : list event) : nat :=
  match trace with
  | [] => 0
  | Render cv :: rest =>
      if bool_decide (cv = current) then activations current rest
      else S (activations cv rest)
  | _ :: rest => activations current rest
  end.

Definition is_finished (q : request) : bool :=
  match stage q with
  | Finished => true
  | _ => false
  end.

(** The effect runs whose [checkVersion] call has returned. *)
Definition finished_runs (rs : list request) : nat :=
  length (List.filter is_finished rs).

(** A payload value that is neither a string nor [null]. *)
Definition is_other_value (v : json) : bool :=
  match v with
  | JString _ | JNull => false
  | _ => true
  end.

(** * Properties of isNewerVersion *)

Section Digits.

Lemma digit_range c :
  is_decimal_digit c = true -> (48 <= c <= 57)%N.
Proof.
  unfold is_decimal_digit. intros H.
  apply andb_true_iff in H as [H1 H2].
  apply N.leb_le in H1. apply N.leb_le in H2. lia.
Qed.

Lemma digit_not_white_space c :
  is_decimal_digit c = true -> is_white_space c = false.
Proof.
  intros H%digit_range. unfold is_white_space, white_space. cbn [existsb].
  repeat (rewrite (proj2 (N.eqb_neq c _)) by lia). reflexivity.
Qed.

Lemma digit_value_decimal c :
  is_decimal_digit c = true -> digit_value c = Some (Z.of_N c - 48).
Proof. unfold digit_value, is_decimal_digit. intros ->. reflexivity. Qed.

Lemma digit_is_radix_digit c :
  is_decimal_digit c = true -> is_radix_digit 10 c = true.
Proof.
  intros H. unfold is_radix_digit. rewrite (digit_value_decimal c H).
  apply digit_range in H. apply Z.ltb_lt. lia.
Qed.

(** In radix 10 only the decimal digits are digits. *)
Lemma radix_digit_is_digit c :
  is_radix_digit 10 c = true -> is_decimal_digit c = true.
Proof.
  unfold is_radix_digit, digit_value, is_decimal_digit.
  destruct ((48 <=? c) && (c <=? 57))%N; [reflexivity|].
  destruct ((97 <=? c) && (c <=? 122))%N eqn:Hl.
  { apply andb_true_iff in Hl as [H1 H2]. apply N.leb_le in H1.
    intros H%Z.ltb_lt. lia. }
  destruct ((65 <=? c) && (c <=? 90))%N eqn:Hu; [|discriminate].
  apply andb_true_iff in Hu as [H1 H2]. apply N.leb_le in H1.
  intros H%Z.ltb_lt. lia.
Qed.

Lemma prefix_while_all p s :
  forallb p s = true -> prefix_while p s = s.
Proof.
  induction s as [|c s IH]; [reflexivity|]. cbn.
  intros [Hc Hs]%andb_true_iff. rewrite Hc, (IH Hs). reflexivity.
Qed.

Lemma forallb_digits_radix d :
  forallb is_decimal_digit d = true -> forallb (is_radix_digit 10) d = true.
Proof.
  induction d as [|c d IH]; [reflexivity|]. cbn.
  intros [Hc Hd]%andb_true_iff.
  rewrite (digit_is_radix_digit c Hc), (IH Hd). reflexivity.
Qed.

Lemma math_int_fold d : forall acc,
  forallb is_decimal_digit d = true ->
  fold_left (fun acc c => acc * 10 + default 0 (digit_value c)) d acc =
  fold_left (fun acc c => 10 * acc + (Z.of_N c - 48)) d acc.
Proof.
  induction d as [|c d IH]; intros acc; [reflexivity|]. cbn [forallb fold_left].
  intros [Hc Hd]%andb_true_iff.
  rewrite (digit_value_decimal c Hc). cbn [default].
  rewrite (Z.mul_comm acc 10). apply IH, Hd.
Qed.

Lemma math_int_decimal d :
  forallb is_decimal_digit d = true -> math_int 10 d = decimal d.
Proof. apply math_int_fold. Qed.

Lemma fold_decimal_nonneg d : forall acc,
  forallb is_decimal_digit d = true -> 0 <= acc ->
  0 <= fold_left (fun acc c => 10 * acc + (Z.of_N c - 48)) d acc.
Proof.
  induction d as [|c d IH]; intros acc; [intros; assumption|]. cbn [forallb fold_left].
  intros [Hc Hd]%andb_true_iff Hacc. apply IH; [assumption|].
  apply digit_range in Hc. lia.
Qed.

Lemma decimal_nonneg d :
  forallb is_decimal_digit d = true -> 0 <= decimal d.
Proof. intros H. apply fold_decimal_nonneg; [assumption|lia]. Qed.

Lemma numeric_digits d : numeric d = true -> forallb is_decimal_digit d = true.
Proof. destruct d; [discriminate|]. intros H. exact H. Qed.

End Digits.

Section Numbers.

Lemma safe_limit_finite : SAFE_LIMIT < 2 ^ 1024.
Proof. unfold SAFE_LIMIT. apply Z.pow_lt_mono_r; lia. Qed.

(** A positive integer below [2^53] is its own Number value. *)
Lemma number_of_safe_integer m :
  0 < m < SAFE_LIMIT -> number_of_integer m = Fin m.
Proof.
  intros [Hpos Hlt]. pose proof safe_limit_finite as Hfin.
  unfold number_of_integer, round_to_double. fold SAFE_LIMIT.
  rewrite (Z.abs_eq m) by lia.
  rewrite (proj2 (Z.ltb_lt m SAFE_LIMIT)) by assumption.
  rewrite (proj2 (Z.leb_gt (2 ^ 1024) m)) by lia.
  rewrite (Z.sgn_pos m) by assumption. f_equal. lia.
Qed.

(** [parseInt(d, 10) || 0] on a numeric component within the exact
    range. *)
Lemma parseInt_numeric d :
  numeric d = true -> decimal d < SAFE_LIMIT ->
  component d = Fin (decimal d).
Proof.
  unfold component.
  intros Hnum Hlt. pose proof (numeric_digits d Hnum) as Hall.
  pose proof (decimal_nonneg d Hall) as Hnn.
  destruct d as [|c d]; [discriminate|].
  assert (Hc : is_decimal_digit c = true).
  { cbn in Hall. apply andb_true_iff in Hall. tauto. }
  pose proof (digit_range c Hc) as Hr.
  cbv zeta. unfold parseInt. cbn [trim_start]. rewrite (digit_not_white_space c Hc).
  unfold MINUS, PLUS.
  rewrite (proj2 (N.eqb_neq c 45)), (proj2 (N.eqb_neq c 43)) by lia.
  cbn [orb Z.eqb Z.leb Z.compare Pos.compare Pos.compare_cont Pos.eqb andb].
  rewrite (prefix_while_all _ _ (forallb_digits_radix _ Hall)).
  rewrite (math_int_decimal _ Hall).
  destruct (Z.eqb_spec (decimal (c :: d)) 0) as [Hz|Hz].
  - rewrite Hz. reflexivity.
  - rewrite number_of_safe_integer by lia. cbn [to_boolean].
    rewrite (proj2 (Z.eqb_neq _ 0) Hz). reflexivity.
Qed.

End Numbers.

Section Splitting.

Lemma split_digits_dot (d rest : jsstring) :
  forallb is_decimal_digit d = true ->
  split DOT (d ++ DOT :: rest) = d :: split DOT rest.
Proof.
  induction d as [|c d IH]; cbn [app split forallb].
  - intros _. rewrite N.eqb_refl. reflexivity.
  - intros [Hc Hd]%andb_true_iff. apply digit_range in Hc.
    unfold DOT at 1. rewrite (proj2 (N.eqb_neq c 46)) by lia.
    rewrite (IH Hd). reflexivity.
Qed.

Lemma split_digits d :
  forallb is_decimal_digit d = true -> split DOT d = [d].
Proof.
  induction d as [|c d IH]; cbn [split forallb]; [reflexivity|].
  intros [Hc Hd]%andb_true_iff. apply digit_range in Hc.
  unfold DOT at 1. rewrite (proj2 (N.eqb_neq c 46)) by lia.
  rewrite (IH Hd). reflexivity.
Qed.

Lemma replace_leading_v_version (prefixed : bool) (major rest : jsstring) :
  numeric major = true ->
  replace_leading_v ((if prefixed then [LOWER_V] else []) ++ major ++ rest) = major ++ rest.
Proof.
  intros Hnum. destruct prefixed; cbn [app replace_leading_v].
  - rewrite N.eqb_refl. reflexivity.
  - destruct major as [|c d]; [discriminate|].
    assert (Hc : is_decimal_digit c = true).
    { apply numeric_digits in Hnum. cbn in Hnum. apply andb_true_iff in Hnum. tauto. }
    apply digit_range in Hc. cbn [app replace_leading_v]. unfold LOWER_V.
    rewrite (proj2 (N.eqb_neq c 118)) by lia. reflexivity.
Qed.

End Splitting.

Lemma parse_version_string (prefixed : bool) (major minor patch : jsstring) :
  safe_component major -> safe_component minor -> safe_component patch ->
  parse (version_string prefixed major minor patch) =
  [Fin (decimal major); Fin (decimal minor); Fin (decimal patch)].
Proof.
  intros [N1 L1] [N2 L2] [N3 L3]. unfold parse, version_string.
  rewrite (replace_leading_v_version _ _ _ N1).
  rewrite (split_digits_dot _ _ (numeric_digits _ N1)).
  rewrite (split_digits_dot _ _ (numeric_digits _ N2)).
  rewrite (split_digits _ (numeric_digits _ N3)).
  cbn [map].
  rewrite (parseInt_numeric _ N1 L1), (parseInt_numeric _ N2 L2), (parseInt_numeric _ N3 L3).
  reflexivity.
Qed.

Section Comparison.

Lemma strict_not_equal_sym a b : strict_not_equal a b = strict_not_equal b a.
Proof.
  destruct a as [|[]], b as [|[]]; cbn; try reflexivity; f_equal; apply Z.eqb_sym.
Qed.

Lemma greater_than_asym a b : greater_than a b = true -> greater_than b a = false.
Proof.
  destruct a as [|[]], b as [|[]]; cbn; try discriminate; try reflexivity;
    intros H%Z.ltb_lt; apply Z.ltb_ge; lia.
Qed.

Lemma greater_than_irrefl a : greater_than a a = false.
Proof. destruct a as [|[]]; cbn; try reflexivity; apply Z.ltb_irrefl. Qed.

Lemma isNewerVersion_swap a b :
  isNewerVersion a b = true -> isNewerVersion b a = false.
Proof.
  unfold isNewerVersion. cbv zeta.
  rewrite (strict_not_equal_sym (element (parse b) 0)).
  rewrite (strict_not_equal_sym (element (parse b) 1)).
  destruct (strict_not_equal (element (parse a) 0) (element (parse b) 0));
    [apply greater_than_asym|].
  destruct (strict_not_equal (element (parse a) 1) (element (parse b) 1));
    apply greater_than_asym.
Qed.

Lemma isNewerVersion_irrefl x : isNewerVersion x x = false.
Proof.
  destruct (isNewerVersion x x) eqn:H; [|reflexivity].
  pose proof (isNewerVersion_swap x x H). congruence.
Qed.

End Comparison.

Section NoDigit.

Lemma has_no_digit_trim_start s :
  has_no_digit s = true -> has_no_digit (trim_start s) = true.
Proof.
  induction s as [|c s IH]; [reflexivity|]. intros H. cbn [trim_start].
  destruct (is_white_space c); [|assumption].
  apply IH. cbn in H. apply andb_true_iff in H. tauto.
Qed.

Lemma prefix_while_no_digit s :
  has_no_digit s = true -> prefix_while (is_radix_digit 10) s = [].
Proof.
  destruct s as [|c s]; [reflexivity|]. cbn.
  intros [Hc _]%andb_true_iff.
  destruct (is_radix_digit 10 c) eqn:Hd; [|reflexivity].
  apply radix_digit_is_digit in Hd. rewrite Hd in Hc. discriminate.
Qed.

Lemma parseInt_no_digit s : has_no_digit s = true -> parseInt s 10 = NaN.
Proof.
  intros H%has_no_digit_trim_start. unfold parseInt.
  assert (Hrest : has_no_digit
            match trim_start s with
            | c :: rest => if ((c =? MINUS) || (c =? PLUS))%N then rest else trim_start s
            | [] => []
            end = true).
  { destruct (trim_start s) as [|c rest]; [reflexivity|].
    destruct ((c =? MINUS) || (c =? PLUS))%N; [|assumption].
    cbn in H. apply andb_true_iff in H. tauto. }
  cbn [orb Z.eqb Z.leb Z.compare Pos.compare Pos.compare_cont Pos.eqb andb].
  rewrite (prefix_while_no_digit _ Hrest). reflexivity.
Qed.

Lemma component_no_digit s : has_no_digit s = true -> component s = Fin 0.
Proof. intros H. unfold component. rewrite (parseInt_no_digit s H). reflexivity. Qed.

Lemma split_no_digit s :
  has_no_digit s = true -> Forall (fun piece => has_no_digit piece = true) (split DOT s).
Proof.
  induction s as [|c s IH]; intros H.
  - repeat constructor.
  - cbn in H. apply andb_true_iff in H as [Hc Hs]. specialize (IH Hs).
    cbn [split]. destruct (c =? DOT)%N.
    + constructor; [reflexivity|assumption].
    + destruct (split DOT s) as [|piece pieces].
      * repeat constructor. cbn. rewrite Hc. reflexivity.
      * inversion IH as [|? ? Hp Hps]; subst. constructor; [|assumption].
        cbn. rewrite Hc. exact Hp.
Qed.

Lemma replace_leading_v_no_digit s :
  has_no_digit s = true -> has_no_digit (replace_leading_v s) = true.
Proof.
  destruct s as [|c s]; [reflexivity|]. intros H. cbn [replace_leading_v].
  destruct (c =? LOWER_V)%N; [|assumption].
  cbn in H. apply andb_true_iff in H. tauto.
Qed.

Lemma parse_no_digit s :
  has_no_digit s = true -> Forall (fun x => x = Fin 0) (parse s).
Proof.
  intros H%replace_leading_v_no_digit%split_no_digit. unfold parse.
  induction H as [|piece pieces Hp _ IH]; cbn [map]; constructor.
  - apply component_no_digit, Hp.
  - exact IH.
Qed.

End NoDigit.

(** * Properties of the hook *)

Section Catch.

Lemma catch_abort_error e s : name e = js "AbortError" -> catch e s = None.
Proof. intros H. unfold catch. rewrite bool_decide_eq_true_2; done. Qed.

Lemma catch_other_error e s :
  name e <> js "AbortError" -> catch e s = Some (failed_state s e).
Proof. intros H. unfold catch. rewrite bool_decide_eq_false_2; done. Qed.

Lemma check_ok_throws resp e :
  check_ok resp = Throw e ->
  ok resp = false /\
  e = {| name := js "Error"; message := js "Version check failed: " ++ statusText resp |}.
Proof.
  unfold check_ok. destruct (ok resp); [discriminate|].
  intros [= <-]. split; reflexivity.
Qed.

Lemma error_is_not_abort_error : js "Error" <> js "AbortError".
Proof. discriminate. Qed.

Lemma type_error_is_not_abort_error : js "TypeError" <> js "AbortError".
Proof. discriminate. Qed.

(** Whatever the [try] block throws on its own is not an [AbortError]. *)
Lemma resolved_state_throws cv data e :
  resolved_state cv data = Throw e -> name e <> js "AbortError".
Proof.
  unfold resolved_state, tag_name, update_available, call_isNewerVersion, type_error.
  destruct data as [| | | |items|members]; cbn; try discriminate.
  - intros [= <-]. exact type_error_is_not_abort_error.
  - destruct (or_null (member (js "tag_name") members)); cbn; try discriminate;
      destruct cv; cbn; try discriminate;
      intros [= <-]; exact type_error_is_not_abort_error.
Qed.

End Catch.

Section Steps.

Lemma may_settle_aborted {A} q (r : settled A) :
  may_settle q r = true -> aborted q = is_abort_error r.
Proof. unfold may_settle. intros H. apply eqb_prop, H. Qed.

(** Every network completion resumes one unfinished run, with one of the
    four outcomes. *)
Lemma step_settle h ev h' :
  step h ev = Some h' -> is_settle ev = true ->
  exists id q update p,
    settles id ev = true /\
    requests h !! id = Some q /\ stage q <> Finished /\
    outcome h q update p /\ h' = advance id p update h.
Proof.
  destruct ev as [cv| |id r|id r]; cbn [is_settle step]; try discriminate.
  - destruct (requests h !! id) as [q|] eqn:Hq; [|discriminate].
    destruct (stage q) eqn:Hs; try discriminate.
    destruct (may_settle q r) eqn:Hm; [|discriminate].
    apply may_settle_aborted in Hm. intros [= <-] _.
    exists id, q. unfold fetch_settles.
    destruct r as [resp|e]; cbn [is_abort_error] in Hm.
    + destruct (check_ok resp) as [[]|e] eqn:Hok.
      * exists None, ReadingBody. repeat split; try done; [apply Nat.eqb_refl|congruence|].
        by apply outcome_reading.
      * apply check_ok_throws in Hok as [_ ->].
        rewrite catch_other_error by exact error_is_not_abort_error.
        eexists _, Finished. repeat split; try done; [apply Nat.eqb_refl|congruence|].
        apply outcome_failed; [done|exact error_is_not_abort_error].
    + destruct (aborted q) eqn:Ha; symmetry in Hm.
      * apply bool_decide_eq_true_1 in Hm. rewrite (catch_abort_error _ _ Hm).
        exists None, Finished. repeat split; try done; [apply Nat.eqb_refl|congruence|].
        by apply outcome_discarded.
      * apply bool_decide_eq_false_1 in Hm. rewrite (catch_other_error _ _ Hm).
        eexists _, Finished. repeat split; try done; [apply Nat.eqb_refl|congruence|].
        by apply outcome_failed.
  - destruct (requests h !! id) as [q|] eqn:Hq; [|discriminate].
    destruct (stage q) eqn:Hs; try discriminate.
    destruct (may_settle q r) eqn:Hm; [|discriminate].
    apply may_settle_aborted in Hm. intros [= <-] _.
    exists id, q. unfold body_settles.
    destruct r as [data|e]; cbn [is_abort_error] in Hm.
    + destruct (resolved_state (version q) data) as [s|e] eqn:Hres.
      * eexists _, Finished. repeat split; try done; [apply Nat.eqb_refl|congruence|].
        by eapply outcome_resolved.
      * pose proof (resolved_state_throws _ _ _ Hres) as Hne.
        rewrite (catch_other_error _ _ Hne).
        eexists _, Finished. repeat split; try done; [apply Nat.eqb_refl|congruence|].
        by apply outcome_failed.
    + destruct (aborted q) eqn:Ha; symmetry in Hm.
      * apply bool_decide_eq_true_1 in Hm. rewrite (catch_abort_error _ _ Hm).
        exists None, Finished. repeat split; try done; [apply Nat.eqb_refl|congruence|].
        by apply outcome_discarded.
      * apply bool_decide_eq_false_1 in Hm. rewrite (catch_other_error _ _ Hm).
        eexists _, Finished. repeat split; try done; [apply Nat.eqb_refl|congruence|].
        by apply outcome_failed.
Qed.

(** The other two events leave the state cell and the write count alone. *)
Lemma step_lifecycle h ev h' :
  step h ev = Some h' -> is_settle ev = false ->
  mounted h = true /\ state h' = state h /\ writes h' = writes h.
Proof.
  destruct ev as [cv| | |]; cbn [is_settle step]; try discriminate.
  - destruct (mounted h); [|discriminate]. intros [= <-] _. unfold render.
    case_bool_decide; done.
  - destruct (mounted h); [|discriminate]. by intros [= <-] _.
Qed.

End Steps.

Section Consistency.

Lemma resolved_state_normal cv data s :
  resolved_state cv data = Normal s ->
  exists tag available,
    tag_name data = Normal tag /\
    update_available (or_null tag) cv = Normal available /\
    s = {| latestVersion := or_null tag;
           currentVersion := cv;
           updateAvailable := available;
           loading := false;
           error := None |}.
Proof.
  unfold resolved_state.
  destruct (tag_name data) as [tag|e]; cbn; [|discriminate].
  destruct (update_available (or_null tag) cv) as [available|e] eqn:Hav;
    cbn; [|discriminate].
  intros [= <-]. exists tag, available. repeat split; [exact Hav].
Qed.

Lemma update_available_spec latest cv available :
  update_available latest cv = Normal available ->
  (available = true <->
   latest <> JNull /\
   exists c, cv = Some c /\ call_isNewerVersion latest c = Normal true).
Proof.
  unfold update_available. intros H.
  assert (latest = JNull \/ latest <> JNull) as [->|Hnn]
    by (destruct latest; (by left) || (by right)).
  { injection H as <-. split; [discriminate|]. intros [Hn _]. by destruct Hn. }
  assert (Hcv : match cv with
                | None => Normal false
                | Some c => call_isNewerVersion latest c
                end = Normal available) by (by destruct latest).
  clear H. destruct cv as [c|].
  - split.
    + intros ->. split; [done|]. by exists c.
    + intros [_ (c' & [= <-] & Hc)]. congruence.
  - injection Hcv as <-. split; [discriminate|]. by intros [_ (c & ? & _)].
Qed.

Lemma consistent_initial cv : consistent (initial_state cv).
Proof.
  unfold consistent, initial_state. cbn. split; [discriminate|].
  intros [Hn _]. by destruct Hn.
Qed.

Lemma consistent_failed s e : consistent s -> consistent (failed_state s e).
Proof. unfold consistent, failed_state. cbn. tauto. Qed.

Lemma consistent_resolved cv data s :
  resolved_state cv data = Normal s -> consistent s.
Proof.
  intros (tag & available & _ & Hav & ->)%resolved_state_normal.
  unfold consistent. cbn. by apply update_available_spec.
Qed.

Lemma outcome_consistent h q update p :
  outcome h q update p -> consistent (state h) -> consistent (default (state h) update).
Proof.
  intros [?|? ?|e ? ?|data s ? ? Hres] Hc; cbn [from_option id].
  - exact Hc.
  - exact Hc.
  - apply consistent_failed, Hc.
  - eapply consistent_resolved, Hres.
Qed.

Lemma step_consistent h ev h' :
  step h ev = Some h' -> consistent (state h) -> consistent (state h').
Proof.
  intros Hstep Hc. destruct (is_settle ev) eqn:Hev.
  - destruct (step_settle _ _ _ Hstep Hev) as (id & q & update & p & _ & _ & _ & Hout & ->).
    cbn [advance state]. by eapply outcome_consistent.
  - destruct (step_lifecycle _ _ _ Hstep Hev) as (_ & -> & _). done.
Qed.

Lemma run_consistent trace : forall h h',
  run h trace = Some h' -> consistent (state h) -> consistent (state h').
Proof.
  induction trace as [|ev trace IH]; intros h h'; cbn [run].
  - by intros [= <-].
  - destruct (step h ev) as [h1|] eqn:Hstep; [|discriminate].
    intros Hrun Hc. eapply IH; [done|]. by eapply step_consistent.
Qed.

End Consistency.

Section Liveness.

Lemma dead_abort q : dead (abort q) = true.
Proof. reflexivity. Qed.

Lemma dead_finished q : dead (at_stage Finished q) = true.
Proof. unfold dead. cbn. apply orb_true_r. Qed.

Lemma dead_unfinished q :
  dead q = true -> stage q <> Finished -> aborted q = true.
Proof. unfold dead. destruct (aborted q), (stage q); done. Qed.

Lemma alive_unfinished q :
  aborted q = false -> stage q <> Finished -> dead q = false.
Proof. unfold dead. intros ->. destruct (stage q); done. Qed.

Lemma length_cleanup rs : length (cleanup rs) = length rs.
Proof. apply length_alter. Qed.

(** What is alive after the cleanup was alive before and is not the last
    run. *)
Lemma cleanup_lookup_alive rs i q :
  cleanup rs !! i = Some q -> dead q = false ->
  rs !! i = Some q /\ S i <> length rs.
Proof.
  unfold cleanup. intros Hq Hd.
  destruct (decide (i = (length rs - 1)%nat)) as [->|Hne].
  - rewrite list_lookup_alter_eq in Hq.
    destruct (rs !! (length rs - 1)%nat); [|discriminate].
    injection Hq as <-. rewrite dead_abort in Hd. discriminate.
  - rewrite list_lookup_alter_ne in Hq by done. split; [done|]. lia.
Qed.

Lemma cleanup_version rs :
  Forall (fun q => version q = None) rs ->
  Forall (fun q => version q = None) (cleanup rs).
Proof. intros H. apply Forall_alter; [done|]. by intros q _ Hq. Qed.

Lemma one_live_mount cv : one_live (mount cv).
Proof.
  intros i q Hq _. cbn in *. destruct i; [done|]. by destruct i.
Qed.

Lemma one_live_cleanup_dead h i q :
  one_live h -> cleanup (requests h) !! i = Some q -> dead q = true.
Proof.
  intros Hlive Hq. destruct (dead q) eqn:Hd; [done|].
  destruct (cleanup_lookup_alive _ _ _ Hq Hd) as [Hq0 Hlast].
  destruct (Hlive _ _ Hq0 Hd) as [_ Hi]. done.
Qed.

Lemma one_live_render cv h : one_live h -> mounted h = true -> one_live (render cv h).
Proof.
  intros Hlive Hm. unfold render. case_bool_decide; [done|].
  intros i q Hq Hd. cbn in *. split; [done|].
  rewrite length_app, length_cleanup. cbn.
  apply lookup_app_Some in Hq as [Hq|[Hi Hq]].
  - rewrite (one_live_cleanup_dead h i q Hlive Hq) in Hd. discriminate.
  - rewrite length_cleanup in Hi, Hq.
    apply lookup_lt_Some in Hq. cbn in Hq. lia.
Qed.

Lemma unmount_silent h : one_live h -> silent (unmount h).
Proof.
  intros Hlive. split; [done|]. cbn. apply Forall_lookup_2.
  intros i q Hq. by eapply one_live_cleanup_dead.
Qed.

Lemma silent_one_live h : silent h -> one_live h.
Proof.
  intros [_ Hall] i q Hq Hd.
  rewrite (Forall_lookup_1 _ _ _ _ Hall Hq) in Hd. discriminate.
Qed.

Lemma one_live_advance id p update h q :
  one_live h -> requests h !! id = Some q -> stage q <> Finished ->
  one_live (advance id p update h).
Proof.
  intros Hlive Hq Hs i q' Hq' Hd. cbn in *. rewrite length_alter.
  destruct (decide (id = i)) as [->|Hne].
  - rewrite list_lookup_alter_eq, Hq in Hq'. injection Hq' as <-.
    apply (Hlive i q Hq). apply alive_unfinished; [|done].
    unfold dead in Hd. cbn in Hd. by destruct (aborted q).
  - rewrite list_lookup_alter_ne in Hq' by done. by apply (Hlive i q').
Qed.

Lemma step_one_live h ev h' : step h ev = Some h' -> one_live h -> one_live h'.
Proof.
  intros Hstep Hlive. destruct (is_settle ev) eqn:Hev.
  - destruct (step_settle _ _ _ Hstep Hev) as (id & q & update & p & _ & Hq & Hs & _ & ->).
    by eapply one_live_advance.
  - destruct ev as [cv| | |]; cbn in Hstep, Hev; try discriminate;
      destruct (mounted h) eqn:Hm; try discriminate; injection Hstep as <-.
    + by apply one_live_render.
    + by apply silent_one_live, unmount_silent.
Qed.

Lemma run_one_live trace : forall h h',
  run h trace = Some h' -> one_live h -> one_live h'.
Proof.
  induction trace as [|ev trace IH]; intros h h'; cbn [run].
  - by intros [= <-].
  - destruct (step h ev) as [h1|] eqn:Hstep; [|discriminate].
    intros Hrun Hlive. eapply IH; [done|]. by eapply step_one_live.
Qed.

Lemma reachable_one_live h : reachable h -> one_live h.
Proof.
  intros (cv & trace & Hrun). eapply run_one_live; [done|]. apply one_live_mount.
Qed.

(** Once unmounted, nothing moves the state. *)
Lemma silent_step h ev h' :
  silent h -> step h ev = Some h' ->
  silent h' /\ state h' = state h /\ writes h' = writes h.
Proof.
  intros [Hm Hall] Hstep. destruct (is_settle ev) eqn:Hev.
  - destruct (step_settle _ _ _ Hstep Hev) as (id & q & update & p & _ & Hq & Hs & Hout & ->).
    pose proof (dead_unfinished q (Forall_lookup_1 _ _ _ _ Hall Hq) Hs) as Ha.
    destruct Hout as [?|? ?|e ? ?|data s ? ? ?]; try congruence.
    repeat split; try done. cbn.
    apply Forall_alter; [done|]. intros q' _ _. apply dead_finished.
  - destruct (step_lifecycle _ _ _ Hstep Hev) as (Hm' & _). congruence.
Qed.

Lemma silent_run trace : forall h h',
  silent h -> run h trace = Some h' ->
  state h' = state h /\ writes h' = writes h.
Proof.
  induction trace as [|ev trace IH]; intros h h' Hsilent; cbn [run].
  - by intros [= <-].
  - destruct (step h ev) as [h1|] eqn:Hstep; [|discriminate].
    intros Hrun. destruct (silent_step _ _ _ Hsilent Hstep) as (Hs1 & <- & <-).
    by apply IH.
Qed.

End Liveness.

Section NullOnly.

Lemma all_null_mount : all_null (mount None).
Proof. split; [reflexivity|]. cbn. by repeat constructor. Qed.

Lemma resolved_state_null data s :
  resolved_state None data = Normal s -> updateAvailable s = false.
Proof.
  intros (tag & available & _ & Hav & ->)%resolved_state_normal. cbn.
  destruct available; [|reflexivity].
  apply update_available_spec in Hav as [Hex _].
  by destruct (Hex eq_refl) as [_ (c & ? & _)].
Qed.

Lemma step_all_null h ev h' :
  step h ev = Some h' -> renders_null ev = true -> all_null h -> all_null h'.
Proof.
  intros Hstep Hev [Hup Hvs]. destruct (is_settle ev) eqn:Hset.
  - destruct (step_settle _ _ _ Hstep Hset) as (id & q & update & p & _ & Hq & _ & Hout & ->).
    split; cbn.
    + destruct Hout as [?|? ?|e ? ?|data s ? ? Hres]; cbn; try done.
      rewrite (Forall_lookup_1 _ _ _ _ Hvs Hq) in Hres.
      by eapply resolved_state_null.
    + apply Forall_alter; [done|]. by intros q' _ Hq'.
  - destruct ev as [[c|]| | |]; cbn in Hstep, Hev, Hset; try discriminate;
      destruct (mounted h); try discriminate; injection Hstep as <-.
    + unfold render. case_bool_decide; [done|]. split; [done|]. cbn.
      apply Forall_app_2; [by apply cleanup_version|]. by repeat constructor.
    + split; [done|]. cbn. by apply cleanup_version.
Qed.

Lemma run_all_null trace : forall h h',
  run h trace = Some h' -> null_only trace -> all_null h -> all_null h'.
Proof.
  unfold null_only.
  induction trace as [|ev trace IH]; intros h h'; cbn [run forallb].
  - by intros [= <-].
  - destruct (step h ev) as [h1|] eqn:Hstep; [|discriminate].
    intros Hrun [Hev Htr]%andb_true_iff Hnull.
    eapply IH; [done|done|]. by eapply step_all_null.
Qed.

End NullOnly.

Section Supersession.

Lemma superseding_render h cv :
  one_live h -> mounted h = true -> cv <> rendered h ->
  superseding h cv (render cv h).
Proof.
  intros Hlive Hm Hcv. unfold render. rewrite bool_decide_eq_false_2 by done.
  unfold superseding. cbn. repeat split.
  - rewrite length_app, length_cleanup. cbn. lia.
  - intros i q Hq Hi. rewrite lookup_app_l in Hq by (by rewrite length_cleanup).
    by eapply one_live_cleanup_dead.
  - exists (fresh_request cv). split; [|done].
    rewrite lookup_app_r by (by rewrite length_cleanup).
    rewrite length_cleanup, Nat.sub_diag. reflexivity.
Qed.

Lemma superseding_step h0 cv h ev h' :
  step h ev = Some h' -> is_settle ev = true ->
  superseding h0 cv h -> superseding h0 cv h'.
Proof.
  intros Hstep Hev (Hm & Hlen & Hold & q & Hq & Hv & Ha & Hst).
  destruct (step_settle _ _ _ Hstep Hev) as (id & q' & update & p & _ & Hq' & Hs & Hout & ->).
  pose proof (lookup_lt_Some _ _ _ Hq') as Hid.
  destruct (decide (id = length (requests h0))) as [->|Hne].
  - (* the run of the latest activation *)
    rewrite Hq in Hq'. injection Hq' as <-.
    assert (Hsame : writes h = writes h0 /\ state h = state h0)
      by (by destruct (stage q)).
    destruct Hsame as [Hw Hstate].
    unfold superseding. cbn. rewrite length_alter. repeat split; try done.
    + intros i q1 Hq1 Hi. rewrite list_lookup_alter_ne in Hq1 by lia. by eapply Hold.
    + exists (at_stage p q). rewrite list_lookup_alter_eq, Hq. split; [done|].
      destruct Hout as [?|? ?|e ? ?|data s ? ? Hres]; cbn.
      * congruence.
      * done.
      * repeat split; try congruence. right. exists e. congruence.
      * rewrite Hv in Hres. repeat split; try congruence.
        -- by apply resolved_state_normal in Hres as (? & ? & _ & _ & ->).
        -- left. by exists data.
  - (* a run of an earlier activation *)
    assert (Hlt : (id < length (requests h0))%nat) by lia.
    pose proof (dead_unfinished q' (Hold _ _ Hq' Hlt) Hs) as Ha'.
    destruct Hout as [?|? ?|e ? ?|data s ? ? ?]; try congruence.
    unfold superseding. cbn. rewrite length_alter. repeat split; try done.
    + intros i q1 Hq1 Hi. destruct (decide (id = i)) as [->|Hi'].
      * rewrite list_lookup_alter_eq, Hq' in Hq1. injection Hq1 as <-.
        apply dead_finished.
      * rewrite list_lookup_alter_ne in Hq1 by done. by eapply Hold.
    + exists q. rewrite list_lookup_alter_ne by done. done.
Qed.

Lemma superseding_run h0 cv trace : forall h h',
  run h trace = Some h' -> only_settles trace ->
  superseding h0 cv h -> superseding h0 cv h'.
Proof.
  unfold only_settles.
  induction trace as [|ev trace IH]; intros h h'; cbn [run forallb].
  - by intros [= <-].
  - destruct (step h ev) as [h1|] eqn:Hstep; [|discriminate].
    intros Hrun [Hev Htr]%andb_true_iff Hsup.
    eapply IH; [done|done|]. by eapply superseding_step.
Qed.

(** A completion for the latest run does the same in two instances that
    agree on that run. *)
Lemma step_same_latest n h1 h2 ev h1' :
  same_latest n h1 h2 -> settles n ev = true -> step h1 ev = Some h1' ->
  exists h2', step h2 ev = Some h2' /\ same_latest n h1' h2'.
Proof.
  intros (Hs & Hw & Hq) Hev Hstep.
  destruct ev as [cv| |id r|id r]; cbn in Hev; try discriminate;
    apply Nat.eqb_eq in Hev as ->; cbn [step] in *; rewrite <- Hq;
    destruct (requests h1 !! n) as [q|] eqn:Hq1; try discriminate;
    destruct (stage q); try discriminate;
    destruct (may_settle q r); try discriminate;
    injection Hstep as <-; (eexists; split; [reflexivity|]).
  - unfold same_latest, fetch_settles. rewrite <- Hs.
    destruct r as [resp|e]; [destruct (check_ok resp)|];
      try destruct (catch _ (state h1)); cbn;
      rewrite !list_lookup_alter_eq, <- Hq, Hq1, Hw; done.
  - unfold same_latest, body_settles. rewrite <- Hs.
    destruct r as [data|e]; [destruct (resolved_state (version q) data)|];
      try destruct (catch _ (state h1)); cbn;
      rewrite !list_lookup_alter_eq, <- Hq, Hq1, Hw; done.
Qed.

(** A completion for an earlier run changes nothing the latest run can
    see. *)
Lemma step_superseded h0 cv h ev h' :
  superseding h0 cv h -> is_settle ev = true ->
  settles (length (requests h0)) ev = false -> step h ev = Some h' ->
  same_latest (length (requests h0)) h' h.
Proof.
  intros (Hm & Hlen & Hold & _) Hev Hn Hstep.
  destruct (step_settle _ _ _ Hstep Hev)
    as (id & q & update & p & Hid & Hq & Hs & Hout & ->).
  assert (Hne : id <> length (requests h0)) by (intros ->; congruence).
  pose proof (lookup_lt_Some _ _ _ Hq) as Hlt.
  assert (Hold' : dead q = true) by (apply (Hold id q Hq); lia).
  pose proof (dead_unfinished q Hold' Hs) as Ha.
  destruct Hout as [?|? ?|e ? ?|data s ? ? ?]; try congruence.
  repeat split. cbn. by rewrite list_lookup_alter_ne.
Qed.

(** Dropping the completions of the superseded runs from a trace changes
    neither the state nor the number of writes. *)
Lemma run_filter_latest h0 cv trace : forall h1 h2 h1',
  superseding h0 cv h1 -> same_latest (length (requests h0)) h1 h2 ->
  only_settles trace -> run h1 trace = Some h1' ->
  exists h2',
    run h2 (List.filter (settles (length (requests h0))) trace) = Some h2' /\
    same_latest (length (requests h0)) h1' h2'.
Proof.
  unfold only_settles.
  induction trace as [|ev trace IH]; intros h1 h2 h1' Hsup Hsame;
    cbn [run forallb List.filter].
  - intros _ [= <-]. by exists h2.
  - intros [Hev Htr]%andb_true_iff.
    destruct (step h1 ev) as [h1a|] eqn:Hstep; [|discriminate]. intros Hrun.
    pose proof (superseding_step _ _ _ _ _ Hstep Hev Hsup) as Hsup'.
    destruct (settles (length (requests h0)) ev) eqn:Hn.
    + destruct (step_same_latest _ _ _ _ _ Hsame Hn Hstep) as (h2a & Hstep2 & Hsame').
      cbn [run]. rewrite Hstep2. by eapply IH.
    + eapply IH; [exact Hsup'| |exact Htr|exact Hrun].
      destruct (step_superseded _ _ _ _ _ Hsup Hev Hn Hstep) as (E1 & E2 & E3).
      destruct Hsame as (F1 & F2 & F3). repeat split; congruence.
Qed.

Lemma forallb_filter (f : event -> bool) trace :
  forallb f (List.filter f trace) = true.
Proof.
  induction trace as [|ev trace IH]; [reflexivity|]. cbn [List.filter].
  destruct (f ev) eqn:Hf; [|exact IH]. cbn [forallb]. by rewrite Hf, IH.
Qed.

(** A finished run takes no completion. *)
Lemma run_on_finished g n q trace g' :
  requests g !! n = Some q -> stage q = Finished ->
  forallb (settles n) trace = true -> run g trace = Some g' ->
  trace = [].
Proof.
  intros Hq Hs. destruct trace as [|ev rest]; [done|]. cbn [forallb run].
  intros [Hev _]%andb_true_iff.
  destruct ev as [cv| |i r|i r]; cbn in Hev; try discriminate;
    apply Nat.eqb_eq in Hev as ->; cbn [step]; by rewrite Hq, Hs.
Qed.

Lemma lookup_advance n p update g q :
  requests g !! n = Some q ->
  requests (advance n p update g) !! n = Some (at_stage p q).
Proof. intros Hq. cbn. by rewrite list_lookup_alter_eq, Hq. Qed.

Lemma run_body_answer g n q trace g' :
  requests g !! n = Some q -> stage q = ReadingBody -> aborted q = false ->
  forallb (settles n) trace = true -> run g trace = Some g' ->
  body_answer (version q) (state g) (writes g) trace (state g') (writes g').
Proof.
  intros Hq Hs Ha. destruct trace as [|ev rest]; cbn [forallb run].
  { by intros _ [= <-]. }
  intros [Hev Hrest]%andb_true_iff.
  destruct ev as [cv| |i r|i r]; cbn in Hev; try discriminate;
    apply Nat.eqb_eq in Hev as ->; cbn [step]; rewrite Hq, Hs; [done|].
  unfold may_settle. rewrite Ha.
  destruct (is_abort_error r) eqn:Hr; cbn [eqb]; [done|]. intros Hrun.
  assert (Hdone : forall update,
            run (advance n Finished update g) rest = Some g' ->
            rest = [] /\ g' = advance n Finished update g).
  { intros update Hrun'.
    pose proof (run_on_finished _ n _ rest g'
                  (lookup_advance n Finished update g q Hq) eq_refl Hrest Hrun') as ->.
    by injection Hrun' as <-. }
  unfold body_settles in Hrun. destruct r as [data|e].
  - destruct (resolved_state (version q) data) as [s|e] eqn:Hres.
    + destruct (Hdone _ Hrun) as [-> ->]. cbn. by rewrite Hres.
    + pose proof (resolved_state_throws _ _ _ Hres) as Hne.
      rewrite (catch_other_error _ _ Hne) in Hrun.
      destruct (Hdone _ Hrun) as [-> ->]. cbn. by rewrite Hres.
  - cbn in Hr. apply bool_decide_eq_false_1 in Hr.
    rewrite (catch_other_error _ _ Hr) in Hrun.
    by destruct (Hdone _ Hrun) as [-> ->].
Qed.

Lemma run_fetch_answer g n q trace g' :
  requests g !! n = Some q -> stage q = Fetching -> aborted q = false ->
  forallb (settles n) trace = true -> run g trace = Some g' ->
  fetch_answer (version q) (state g) (writes g) trace (state g') (writes g').
Proof.
  intros Hq Hs Ha. destruct trace as [|ev rest]; cbn [forallb run].
  { by intros _ [= <-]. }
  intros [Hev Hrest]%andb_true_iff.
  destruct ev as [cv| |i r|i r]; cbn in Hev; try discriminate;
    apply Nat.eqb_eq in Hev as ->; cbn [step]; rewrite Hq, Hs; [|done].
  unfold may_settle. rewrite Ha.
  destruct (is_abort_error r) eqn:Hr; cbn [eqb]; [done|]. intros Hrun.
  assert (Hdone : forall update,
            run (advance n Finished update g) rest = Some g' ->
            rest = [] /\ g' = advance n Finished update g).
  { intros update Hrun'.
    pose proof (run_on_finished _ n _ rest g'
                  (lookup_advance n Finished update g q Hq) eq_refl Hrest Hrun') as ->.
    by injection Hrun' as <-. }
  unfold fetch_settles in Hrun. destruct r as [resp|e].
  - cbn [fetch_answer]. unfold check_ok in Hrun. destruct (ok resp).
    + apply (run_body_answer (advance n ReadingBody None g) n
               (at_stage ReadingBody q) rest g'); try done.
      by apply lookup_advance.
    + rewrite catch_other_error in Hrun by exact error_is_not_abort_error.
      by destruct (Hdone _ Hrun) as [-> ->].
  - cbn in Hr. apply bool_decide_eq_false_1 in Hr.
    rewrite (catch_other_error _ _ Hr) in Hrun.
    by destruct (Hdone _ Hrun) as [-> ->].
Qed.

Lemma lookup_render h cv :
  cv <> rendered h ->
  requests (render cv h) !! length (requests h) = Some (fresh_request cv) /\
  state (render cv h) = state h /\ writes (render cv h) = writes h.
Proof.
  intros Hcv. unfold render. rewrite bool_decide_eq_false_2 by done. cbn.
  repeat split. rewrite lookup_app_r by (by rewrite length_cleanup).
  by rewrite length_cleanup, Nat.sub_diag.
Qed.

End Supersession.

(** * The claims *)

(** C1, as stated, fails: a component of [2^53] or more is rounded to the
    nearest Number, so [9007199254740993.0.0] and [9007199254740992.0.0]
    parse to the same triple and the first is not reported newer, although
    its integer triple is the greater one. *)
Lemma isNewerVersion_beyond_safe_range :
  version_string false (js "9007199254740993") (js "0") (js "0")
    = js "9007199254740993.0.0" /\
  version_string false (js "9007199254740992") (js "0") (js "0")
    = js "9007199254740992.0.0" /\
  numeric (js "9007199254740993") = true /\
  numeric (js "9007199254740992") = true /\
  numeric (js "0") = true /\
  triple_gt (decimal (js "9007199254740993"), decimal (js "0"), decimal (js "0"))
            (decimal (js "9007199254740992"), decimal (js "0"), decimal (js "0")) /\
  isNewerVersion (js "9007199254740993.0.0") (js "9007199254740992.0.0") = false.
Proof.
  repeat split; try (vm_compute; reflexivity).
  left. vm_compute. reflexivity.
Qed.

(** C1, amended: for version strings of exactly three numeric components,
    each below [2^53], with an optional leading [v], [isNewerVersion a b]
    is true exactly when the integer triple of [a] strictly exceeds that of
    [b] in the lexicographic order, the components being compared as
    numbers; in particular on [v2.0.0] against [1.9.9], [1.10.0] against
    [1.9.9] and [1.2.3] against itself. *)
Theorem isNewerVersion_triple_order :
  (forall (va vb : bool) (a1 a2 a3 b1 b2 b3 : jsstring),
     safe_component a1 -> safe_component a2 -> safe_component a3 ->
     safe_component b1 -> safe_component b2 -> safe_component b3 ->
     isNewerVersion (version_string va a1 a2 a3) (version_string vb b1 b2 b3) = true <->
     triple_gt (decimal a1, decimal a2, decimal a3)
               (decimal b1, decimal b2, decimal b3)) /\
  isNewerVersion (js "v2.0.0") (js "1.9.9") = true /\
  isNewerVersion (js "1.10.0") (js "1.9.9") = true /\
  isNewerVersion (js "1.2.3") (js "1.2.3") = false.
Proof.
  split; [|repeat split; vm_compute; reflexivity].
  intros va vb a1 a2 a3 b1 b2 b3 Ha1 Ha2 Ha3 Hb1 Hb2 Hb3.
  unfold isNewerVersion. cbv zeta.
  rewrite (parse_version_string va a1 a2 a3 Ha1 Ha2 Ha3).
  rewrite (parse_version_string vb b1 b2 b3 Hb1 Hb2 Hb3).
  unfold element, triple_gt. cbn [lookup list_lookup].
  unfold strict_not_equal, greater_than, number_equal, number_less_than.
  cbn [to_number finite_part from_option id].
  destruct (Z.eqb_spec (decimal a1) (decimal b1)) as [E1|N1]; cbn [negb].
  - destruct (Z.eqb_spec (decimal a2) (decimal b2)) as [E2|N2]; cbn [negb];
      rewrite Z.ltb_lt; lia.
  - rewrite Z.ltb_lt. lia.
Qed.

Lemma isNewerVersion_triple_order_witness :
  isNewerVersion (version_string true (js "2") (js "0") (js "0"))
                 (version_string false (js "1") (js "9") (js "9")) = true <->
  triple_gt (decimal (js "2"), decimal (js "0"), decimal (js "0"))
            (decimal (js "1"), decimal (js "9"), decimal (js "9")).
Proof.
  apply (proj1 isNewerVersion_triple_order); split; vm_compute; reflexivity.
Defined.

(** C2 at the input where it fails: [1.2] has no patch component, the
    binding is [undefined] and not [0], and [5 > undefined] is false, so
    [1.2.5] is not reported newer than [1.2], while it is newer than
    [1.2.0]. The other two examples of the claim hold: [1.2] is not newer
    than [1.2.0], and [1.x.3] parses as [1.0.3] does. *)
Theorem isNewerVersion_missing_component :
  parse (js "1.2") = [Fin 1; Fin 2] /\
  element (parse (js "1.2")) 2 = Undefined /\
  isNewerVersion (js "1.2.5") (js "1.2") = false /\
  isNewerVersion (js "1.2.5") (js "1.2.0") = true /\
  isNewerVersion (js "1.2") (js "1.2.0") = false /\
  parse (js "1.x.3") = parse (js "1.0.3").
Proof. repeat split; vm_compute; reflexivity. Qed.

(** C10: [isNewerVersion a b] and [isNewerVersion b a] are never both
    true, whatever the strings, and no string is newer than itself. *)
Theorem isNewerVersion_asymmetric :
  (forall a b : jsstring, isNewerVersion a b && isNewerVersion b a = false) /\
  (forall x : jsstring, isNewerVersion x x = false).
Proof.
  split.
  - intros a b. destruct (isNewerVersion a b) eqn:Hab; [|reflexivity].
    cbn. by apply isNewerVersion_swap.
  - apply isNewerVersion_irrefl.
Qed.

(** C3, as stated, fails: after a check with [currentVersion = 1.3.0] found
    [v1.4.0], a re-activation with [currentVersion = null] leaves the state
    cell as it was, update flag included, and the flag stays up when the
    new request then fails. *)
Lemma updateAvailable_survives_null_activation :
  option_map (fun h => (rendered h, updateAvailable (state h)))
    (run (mount (Some (js "1.3.0")))
       [FetchSettles 0 (Fulfilled OK_RESPONSE);
        BodySettles 0 (Fulfilled (release "v1.4.0"));
        Render None])
  = Some (None, true) /\
  option_map (fun h => (rendered h, updateAvailable (state h), loading (state h)))
    (run (mount (Some (js "1.3.0")))
       [FetchSettles 0 (Fulfilled OK_RESPONSE);
        BodySettles 0 (Fulfilled (release "v1.4.0"));
        Render None;
        FetchSettles 1 (Fulfilled SERVER_ERROR)])
  = Some (None, true, false).
Proof. split; vm_compute; reflexivity. Qed.

(** C3, amended: in every reachable state [updateAvailable] is true exactly
    when the [latestVersion] and [currentVersion] fields of that state are
    both non-null and [isNewerVersion] of them is true; and an instance
    whose activations all had [currentVersion = null] never reports an
    update, whatever the feed answers. *)
Theorem updateAvailable_invariant :
  (forall h, reachable h ->
     updateAvailable (state h) = true <->
     latestVersion (state h) <> JNull /\
     exists c, currentVersion (state h) = Some c /\
               call_isNewerVersion (latestVersion (state h)) c = Normal true) /\
  (forall trace h, null_only trace -> run (mount None) trace = Some h ->
     updateAvailable (state h) = false).
Proof.
  split.
  - intros h (cv & trace & Hrun).
    apply (run_consistent trace (mount cv) h Hrun), consistent_initial.
  - intros trace h Hnull Hrun.
    apply (run_all_null trace (mount None) h Hrun Hnull), all_null_mount.
Qed.

Lemma updateAvailable_invariant_witness :
  (updateAvailable (state (mount (Some (js "1.3.0")))) = true <->
   latestVersion (state (mount (Some (js "1.3.0")))) <> JNull /\
   exists c, currentVersion (state (mount (Some (js "1.3.0")))) = Some c /\
             call_isNewerVersion (latestVersion (state (mount (Some (js "1.3.0"))))) c
             = Normal true) /\
  null_only [FetchSettles 0 (Fulfilled OK_RESPONSE);
             BodySettles 0 (Fulfilled (release "v1.4.0"))] /\
  updateAvailable
    (state (advance 0 Finished
              (Some {| latestVersion := JString (js "v1.4.0");
                       currentVersion := None;
                       updateAvailable := false;
                       loading := false;
                       error := None |})
              (advance 0 ReadingBody None (mount None)))) = false.
Proof.
  split.
  { apply (proj1 updateAvailable_invariant).
    exists (Some (js "1.3.0")), []. reflexivity. }
  split; [reflexivity|].
  apply (proj2 updateAvailable_invariant
           [FetchSettles 0 (Fulfilled OK_RESPONSE);
            BodySettles 0 (Fulfilled (release "v1.4.0"))]);
    vm_compute; reflexivity.
Defined.

(** C4, as stated, fails: re-activated with [2.0.0] while the request of
    the activation with [1.0.0] is unresolved, and answered with a 500, the
    hook ends with [loading = false] after one write, but its state still
    carries [currentVersion = 1.0.0]. *)
Lemma failed_reactivation_keeps_old_version :
  option_map (fun h => (rendered h, currentVersion (state h), loading (state h), writes h))
    (run (mount (Some (js "1.0.0")))
       [Render (Some (js "2.0.0"));
        FetchSettles 1 (Fulfilled SERVER_ERROR)])
  = Some (Some (js "2.0.0"), Some (js "1.0.0"), false, 1%nat).
Proof. vm_compute. reflexivity. Qed.

(** C4, amended: after a re-activation with a new [currentVersion], and
    whatever completions arrive in whatever order, the superseded runs
    write nothing: until the request of the latest activation completes
    the state is the one held at the re-activation, and once it has
    completed exactly one write has happened, which set [loading] to
    false. The completions of the superseded runs can be dropped from the
    trace without changing the state or the number of writes, and the
    completions of the latest run that the trace delivers decide the
    state: when they are an ok response and a payload the state is the one
    computed from the latest [currentVersion] and that payload, and when
    they are a rejection or a response that is not ok the state is the
    one held at the re-activation with [loading] cleared and the error of
    that failure. *)
Theorem reactivation_single_outcome :
  forall h cv trace h',
    reachable h -> mounted h = true -> cv <> rendered h ->
    only_settles trace ->
    run (render cv h) trace = Some h' ->
    (exists q,
       requests h' !! length (requests h) = Some q /\
       version q = cv /\
       match stage q with
       | Finished =>
           writes h' = S (writes h) /\ loading (state h') = false /\
           ((exists data, resolved_state cv data = Normal (state h')) \/
            (exists e, state h' = failed_state (state h) e))
       | _ => writes h' = writes h /\ state h' = state h
       end) /\
    (exists h'',
       run (render cv h) (List.filter (settles (length (requests h))) trace) = Some h'' /\
       state h'' = state h' /\ writes h'' = writes h') /\
    fetch_answer cv (state h) (writes h)
      (List.filter (settles (length (requests h))) trace)
      (state h') (writes h').
Proof.
  intros h cv trace h' Hreach Hm Hcv Htrace Hrun.
  pose proof (superseding_render h cv (reachable_one_live h Hreach) Hm Hcv) as Hsup.
  destruct (run_filter_latest h cv trace (render cv h) (render cv h) h' Hsup)
    as (h'' & Hrun' & Hs & Hw & _); try done.
  split; [|split].
  - destruct (superseding_run h cv trace _ _ Hrun Htrace Hsup)
      as (_ & _ & _ & q & Hq & Hv & _ & Hst).
    exists q. done.
  - exists h''. done.
  - destruct (lookup_render h cv Hcv) as (Hq & Hstate & Hwrites).
    pose proof (run_fetch_answer (render cv h) (length (requests h))
                  (fresh_request cv) _ h'' Hq eq_refl eq_refl
                  (forallb_filter _ trace) Hrun') as Hans.
    cbn [fresh_request version] in Hans.
    by rewrite Hstate, Hwrites, <- Hs, <- Hw in Hans.
Qed.

Lemma reactivation_single_outcome_witness :
  (exists q,
     requests (advance 1 Finished
                 (Some {| latestVersion := JString (js "v2.1.0");
                          currentVersion := Some (js "2.0.0");
                          updateAvailable := true;
                          loading := false;
                          error := None |})
                 (advance 1 ReadingBody None
                    (advance 0 Finished None
                       (render (Some (js "2.0.0")) (mount (Some (js "1.0.0")))))))
       !! 1%nat = Some q /\
     version q = Some (js "2.0.0") /\ stage q = Finished) /\
  (exists h'',
     run (render (Some (js "2.0.0")) (mount (Some (js "1.0.0"))))
         [FetchSettles 1 (Fulfilled OK_RESPONSE);
          BodySettles 1 (Fulfilled (release "v2.1.0"))] = Some h'' /\
     state h'' = {| latestVersion := JString (js "v2.1.0");
                    currentVersion := Some (js "2.0.0");
                    updateAvailable := true;
                    loading := false;
                    error := None |}) /\
  fetch_answer (Some (js "2.0.0")) (initial_state (Some (js "1.0.0"))) 0
    [FetchSettles 1 (Fulfilled OK_RESPONSE);
     BodySettles 1 (Fulfilled (release "v2.1.0"))]
    {| latestVersion := JString (js "v2.1.0");
       currentVersion := Some (js "2.0.0");
       updateAvailable := true;
       loading := false;
       error := None |} 1.
Proof.
  destruct (reactivation_single_outcome
              (mount (Some (js "1.0.0"))) (Some (js "2.0.0"))
              [FetchSettles 0 (Rejected ABORT_ERROR);
               FetchSettles 1 (Fulfilled OK_RESPONSE);
               BodySettles 1 (Fulfilled (release "v2.1.0"))]
              (advance 1 Finished
                 (Some {| latestVersion := JString (js "v2.1.0");
                          currentVersion := Some (js "2.0.0");
                          updateAvailable := true;
                          loading := false;
                          error := None |})
                 (advance 1 ReadingBody None
                    (advance 0 Finished None
                       (render (Some (js "2.0.0")) (mount (Some (js "1.0.0"))))))))
    as ((q & Hq & Hv & _) & (h'' & Hrun & Hs & _) & Hans).
  - exists (Some (js "1.0.0")), []. reflexivity.
  - reflexivity.
  - discriminate.
  - reflexivity.
  - vm_compute. reflexivity.
  - split; [|split].
    + exists q. split; [exact Hq|]. split; [exact Hv|].
      vm_compute in Hq. injection Hq as <-. reflexivity.
    + exists h''. split; [exact Hrun|]. rewrite Hs. vm_compute. reflexivity.
    + exact Hans.
Defined.

(** C5: the [catch] block recognises an [AbortError] by its name and
    returns without a [setState]; and once the caller has unmounted,
    whatever completions arrive afterwards, the state stays exactly the
    one held at the unmount: [loading] is not cleared, no error appears,
    and nothing is written. *)
Theorem abort_on_unmount_is_silent :
  (forall e s, name e = js "AbortError" -> catch e s = None) /\
  (forall h h1 trace h2,
     reachable h -> step h Unmount = Some h1 -> run h1 trace = Some h2 ->
     state h2 = state h /\ writes h2 = writes h).
Proof.
  split; [apply catch_abort_error|].
  intros h h1 trace h2 Hreach Hstep Hrun. cbn in Hstep.
  destruct (mounted h); [|discriminate]. injection Hstep as <-.
  apply (silent_run trace (unmount h) h2); [|done].
  apply unmount_silent, reachable_one_live, Hreach.
Qed.

Lemma abort_on_unmount_is_silent_witness :
  catch ABORT_ERROR (initial_state (Some (js "1.3.0"))) = None /\
  state (advance 0 Finished None (unmount (mount (Some (js "1.3.0")))))
    = state (mount (Some (js "1.3.0"))) /\
  writes (advance 0 Finished None (unmount (mount (Some (js "1.3.0")))))
    = writes (mount (Some (js "1.3.0"))).
Proof.
  split.
  - apply (proj1 abort_on_unmount_is_silent). reflexivity.
  - apply (proj2 abort_on_unmount_is_silent
             (mount (Some (js "1.3.0")))
             (unmount (mount (Some (js "1.3.0"))))
             [FetchSettles 0 (Rejected ABORT_ERROR)]).
    + exists (Some (js "1.3.0")), []. reflexivity.
    + reflexivity.
    + vm_compute. reflexivity.
Defined.

(** C6, as stated, fails: a re-activation with a changed [currentVersion]
    does not touch the state cell. After a check with [1.3.0] found
    [v1.4.0], re-activating with [1.5.0] leaves [loading = false],
    [currentVersion = 1.3.0] and the update flag up. *)
Lemma reactivation_keeps_state :
  option_map state
    (run (mount (Some (js "1.3.0")))
       [FetchSettles 0 (Fulfilled OK_RESPONSE);
        BodySettles 0 (Fulfilled (release "v1.4.0"));
        Render (Some (js "1.5.0"))])
  = Some {| latestVersion := JString (js "v1.4.0");
            currentVersion := Some (js "1.3.0");
            updateAvailable := true;
            loading := false;
            error := None |}.
Proof. vm_compute. reflexivity. Qed.

(** C6, amended: the first activation sets the state to
    [{latestVersion: null, currentVersion, updateAvailable: false,
    loading: true, error: null}] and issues exactly one request, for that
    [currentVersion]. A re-activation with a changed [currentVersion]
    aborts the controller of the previous run and issues exactly one
    request, for the new [currentVersion]; it does not set the state: as
    long as that request has not completed, whatever completions arrive,
    the state and the number of writes are those held at the
    re-activation, and no further request is issued. *)
Theorem activation_effect :
  (forall cv,
     state (mount cv) =
       {| latestVersion := JNull;
          currentVersion := cv;
          updateAvailable := false;
          loading := true;
          error := None |} /\
     requests (mount cv) =
       [{| version := cv; aborted := false; stage := Fetching |}]) /\
  (forall h cv trace h',
     reachable h -> mounted h = true -> cv <> rendered h ->
     only_settles trace ->
     run (render cv h) trace = Some h' ->
     step h (Render cv) = Some (render cv h) /\
     requests (render cv h) =
       cleanup (requests h) ++
       [{| version := cv; aborted := false; stage := Fetching |}] /\
     length (requests h') = S (length (requests h)) /\
     exists q,
       requests h' !! length (requests h) = Some q /\
       version q = cv /\ aborted q = false /\
       (stage q <> Finished -> state h' = state h /\ writes h' = writes h)).
Proof.
  split; [by intros cv|].
  intros h cv trace h' Hreach Hm Hcv Htrace Hrun.
  pose proof (superseding_render h cv (reachable_one_live h Hreach) Hm Hcv) as Hsup.
  destruct (superseding_run h cv trace _ _ Hrun Htrace Hsup)
    as (_ & Hlen & _ & q & Hq & Hv & Ha & Hst).
  split; [by cbn; rewrite Hm|]. split.
  { unfold render. by rewrite bool_decide_eq_false_2. }
  split; [done|]. exists q. repeat split; try done;
    destruct (stage q); try done; tauto.
Qed.

Lemma activation_effect_witness :
  state (advance 1 ReadingBody None
           (render (Some (js "1.5.0"))
              (advance 0 Finished
                 (Some {| latestVersion := JString (js "v1.4.0");
                          currentVersion := Some (js "1.3.0");
                          updateAvailable := true;
                          loading := false;
                          error := None |})
                 (advance 0 ReadingBody None (mount (Some (js "1.3.0")))))))
  = {| latestVersion := JString (js "v1.4.0");
       currentVersion := Some (js "1.3.0");
       updateAvailable := true;
       loading := false;
       error := None |}.
Proof.
  destruct (proj2 activation_effect
              (advance 0 Finished
                 (Some {| latestVersion := JString (js "v1.4.0");
                          currentVersion := Some (js "1.3.0");
                          updateAvailable := true;
                          loading := false;
                          error := None |})
                 (advance 0 ReadingBody None (mount (Some (js "1.3.0")))))
              (Some (js "1.5.0"))
              [FetchSettles 1 (Fulfilled OK_RESPONSE)]
              (advance 1 ReadingBody None
                 (render (Some (js "1.5.0"))
                    (advance 0 Finished
                       (Some {| latestVersion := JString (js "v1.4.0");
                                currentVersion := Some (js "1.3.0");
                                updateAvailable := true;
                                loading := false;
                                error := None |})
                       (advance 0 ReadingBody None (mount (Some (js "1.3.0"))))))))
    as (_ & _ & _ & q & Hq & _ & _ & Hkeep).
  - exists (Some (js "1.3.0")),
      [FetchSettles 0 (Fulfilled OK_RESPONSE);
       BodySettles 0 (Fulfilled (release "v1.4.0"))].
    vm_compute. reflexivity.
  - reflexivity.
  - discriminate.
  - reflexivity.
  - vm_compute. reflexivity.
  - vm_compute in Hq. injection Hq as <-.
    destruct Hkeep as [Hstate _]; [discriminate|]. rewrite Hstate. reflexivity.
Defined.

(** C7, as stated, fails: when an earlier check of the same instance
    succeeded, a later failed attempt keeps what that check found. After
    [v1.4.0] was found for [1.3.0], a re-activation with [1.2.0] answered
    by a 500 ends with the error set, [latestVersion = v1.4.0] and the
    update flag up. *)
Lemma failure_after_success_keeps_latest :
  option_map state
    (run (mount (Some (js "1.3.0")))
       [FetchSettles 0 (Fulfilled OK_RESPONSE);
        BodySettles 0 (Fulfilled (release "v1.4.0"));
        Render (Some (js "1.2.0"));
        FetchSettles 1 (Fulfilled SERVER_ERROR)])
  = Some {| latestVersion := JString (js "v1.4.0");
            currentVersion := Some (js "1.3.0");
            updateAvailable := true;
            loading := false;
            error := Some (js "Version check failed: Internal Server Error") |}.
Proof. vm_compute. reflexivity. Qed.

(** C7, amended: when the request of a run that was not aborted fails,
    by a rejection of [fetch] or of the body read, or by a status outside
    200..299, the resulting state has [loading = false] and a non-null
    [error], the message of the rejection or [Version check failed: ]
    followed by the status text, while [latestVersion], [currentVersion]
    and [updateAvailable] keep the values they had before the attempt:
    null and false if they were so. *)
Theorem failed_check_state :
  (forall h id q (r : settled response),
     requests h !! id = Some q -> stage q = Fetching -> aborted q = false ->
     match r with
     | Rejected e => name e <> js "AbortError"
     | Fulfilled resp => ok resp = false
     end ->
     exists h',
       step h (FetchSettles id r) = Some h' /\
       state h' =
         {| latestVersion := latestVersion (state h);
            currentVersion := currentVersion (state h);
            updateAvailable := updateAvailable (state h);
            loading := false;
            error := Some match r with
                          | Rejected e => message e
                          | Fulfilled resp =>
                              js "Version check failed: " ++ statusText resp
                          end |}) /\
  (forall h id q e,
     requests h !! id = Some q -> stage q = ReadingBody -> aborted q = false ->
     name e <> js "AbortError" ->
     exists h',
       step h (BodySettles id (Rejected e)) = Some h' /\
       state h' =
         {| latestVersion := latestVersion (state h);
            currentVersion := currentVersion (state h);
            updateAvailable := updateAvailable (state h);
            loading := false;
            error := Some (message e) |}).
Proof.
  split.
  - intros h id q r Hq Hs Ha Hr. cbn [step]. rewrite Hq, Hs.
    unfold may_settle, fetch_settles. rewrite Ha.
    destruct r as [resp|e]; cbn [is_abort_error eqb].
    + unfold check_ok. rewrite Hr.
      rewrite catch_other_error by exact error_is_not_abort_error.
      eexists. split; reflexivity.
    + rewrite bool_decide_eq_false_2 by done. rewrite (catch_other_error _ _ Hr).
      eexists. split; reflexivity.
  - intros h id q e Hq Hs Ha He. cbn [step]. rewrite Hq, Hs.
    unfold may_settle, body_settles. rewrite Ha. cbn [is_abort_error eqb].
    rewrite bool_decide_eq_false_2 by done. rewrite (catch_other_error _ _ He).
    eexists. split; reflexivity.
Qed.

Lemma failed_check_state_witness :
  (exists h',
     step (mount (Some (js "1.3.0"))) (FetchSettles 0 (Fulfilled SERVER_ERROR)) = Some h' /\
     state h' =
       {| latestVersion := JNull;
          currentVersion := Some (js "1.3.0");
          updateAvailable := false;
          loading := false;
          error := Some (js "Version check failed: " ++ js "Internal Server Error") |}) /\
  (exists h',
     step (mount (Some (js "1.3.0"))) (FetchSettles 0 (Rejected NETWORK_ERROR)) = Some h' /\
     state h' =
       {| latestVersion := JNull;
          currentVersion := Some (js "1.3.0");
          updateAvailable := false;
          loading := false;
          error := Some (js "Failed to fetch") |}) /\
  (exists h',
     step (advance 0 ReadingBody None (mount (Some (js "1.3.0"))))
          (BodySettles 0 (Rejected NETWORK_ERROR)) = Some h' /\
     state h' =
       {| latestVersion := JNull;
          currentVersion := Some (js "1.3.0");
          updateAvailable := false;
          loading := false;
          error := Some (js "Failed to fetch") |}).
Proof.
  split; [|split].
  - apply (proj1 failed_check_state (mount (Some (js "1.3.0"))) 0%nat
             (fresh_request (Some (js "1.3.0"))) (Fulfilled SERVER_ERROR));
      reflexivity.
  - apply (proj1 failed_check_state (mount (Some (js "1.3.0"))) 0%nat
             (fresh_request (Some (js "1.3.0"))) (Rejected NETWORK_ERROR));
      try reflexivity. discriminate.
  - apply (proj2 failed_check_state
             (advance 0 ReadingBody None (mount (Some (js "1.3.0")))) 0%nat
             (at_stage ReadingBody (fresh_request (Some (js "1.3.0")))) NETWORK_ERROR);
      try reflexivity. discriminate.
Defined.

(** C8: when the feed answers with a status from 200 to 299 and a JSON
    object without a [tag_name] member, the check ends as a success:
    [latestVersion = null], [updateAvailable = false], [error = null] and
    [loading = false]. *)
Theorem missing_tag_name_resolves_null :
  forall h id q resp members,
    requests h !! id = Some q -> stage q = Fetching -> aborted q = false ->
    ok resp = true ->
    member (js "tag_name") members = None ->
    exists h',
      run h [FetchSettles id (Fulfilled resp);
             BodySettles id (Fulfilled (JObject members))] = Some h' /\
      state h' =
        {| latestVersion := JNull;
           currentVersion := version q;
           updateAvailable := false;
           loading := false;
           error := None |}.
Proof.
  intros h id q resp members Hq Hs Ha Hok Hmem. cbn [run step].
  rewrite Hq, Hs. unfold may_settle at 1. rewrite Ha. cbn [is_abort_error eqb].
  unfold fetch_settles, check_ok. rewrite Hok.
  cbn [advance requests]. rewrite list_lookup_alter_eq, Hq. cbn [fmap option_fmap option_map at_stage stage].
  unfold may_settle. cbn [aborted at_stage is_abort_error]. rewrite Ha. cbn [eqb].
  unfold body_settles, resolved_state, tag_name. cbn [version].
  rewrite Hmem. cbn.
  eexists. split; reflexivity.
Qed.

Lemma missing_tag_name_resolves_null_witness :
  exists h',
    run (mount (Some (js "1.3.0")))
        [FetchSettles 0 (Fulfilled OK_RESPONSE);
         BodySettles 0 (Fulfilled (JObject [(js "name", JString (js "Release 1.4"))]))]
    = Some h' /\
    state h' =
      {| latestVersion := JNull;
         currentVersion := Some (js "1.3.0");
         updateAvailable := false;
         loading := false;
         error := None |}.
Proof.
  apply (missing_tag_name_resolves_null (mount (Some (js "1.3.0"))) 0
           (fresh_request (Some (js "1.3.0"))) OK_RESPONSE
           [(js "name", JString (js "Release 1.4"))]);
    reflexivity.
Defined.

(** * Further properties of isNewerVersion *)

Section Order.

Ltac compare_numbers :=
  unfold strict_not_equal, greater_than, number_equal, number_less_than;
  cbn [to_number finite_part from_option id];
  try done;
  rewrite ?negb_false_iff, ?negb_true_iff, ?Z.ltb_lt, ?Z.eqb_eq, ?Z.eqb_neq;
  try done; try lia.

Lemma number_equal_trans x y z :
  number_equal x y = true -> number_equal y z = true -> number_equal x z = true.
Proof.
  destruct x, y, z; compare_numbers.
Qed.

Lemma same_trans a b c :
  strict_not_equal a b = false -> strict_not_equal b c = false ->
  strict_not_equal a c = false.
Proof.
  destruct a as [|x], b as [|y], c as [|z]; cbn; try done.
  rewrite !negb_false_iff. apply number_equal_trans.
Qed.

Lemma greater_than_trans a b c :
  greater_than a b = true -> greater_than b c = true -> greater_than a c = true.
Proof.
  destruct a as [|[]], b as [|[]], c as [|[]]; compare_numbers.
Qed.

Lemma greater_than_same a b c :
  greater_than a b = true -> strict_not_equal b c = false ->
  greater_than a c = true.
Proof.
  destruct a as [|[]], b as [|[]], c as [|[]]; compare_numbers.
Qed.

Lemma same_greater_than a b c :
  strict_not_equal a b = false -> greater_than b c = true ->
  greater_than a c = true.
Proof.
  destruct a as [|[]], b as [|[]], c as [|[]]; compare_numbers.
Qed.

Lemma greater_than_differs a b :
  greater_than a b = true -> strict_not_equal a b = true.
Proof.
  destruct a as [|[]], b as [|[]]; compare_numbers.
Qed.

End Order.

(** X1: [isNewerVersion] is transitive on all strings: with irreflexivity
    and asymmetry it is a strict partial order, malformed input
    included. *)
Theorem isNewerVersion_transitive :
  forall a b c : jsstring,
    isNewerVersion a b = true -> isNewerVersion b c = true ->
    isNewerVersion a c = true.
Proof.
  intros a b c. unfold isNewerVersion. cbv zeta.
  generalize (element (parse a) 0) (element (parse a) 1) (element (parse a) 2)
             (element (parse b) 0) (element (parse b) 1) (element (parse b) 2)
             (element (parse c) 0) (element (parse c) 1) (element (parse c) 2).
  intros a0 a1 a2 b0 b1 b2 c0 c1 c2.
  destruct (strict_not_equal a0 b0) eqn:Hab0.
  - intros Hgt Hbc.
    assert (Hac : greater_than a0 c0 = true).
    { destruct (strict_not_equal b0 c0) eqn:Hbc0.
      - by eapply greater_than_trans.
      - by eapply greater_than_same. }
    by rewrite (greater_than_differs _ _ Hac).
  - destruct (strict_not_equal b0 c0) eqn:Hbc0.
    + intros _ Hgt.
      pose proof (same_greater_than _ _ _ Hab0 Hgt) as Hac.
      by rewrite (greater_than_differs _ _ Hac).
    + rewrite (same_trans _ _ _ Hab0 Hbc0).
      destruct (strict_not_equal a1 b1) eqn:Hab1.
      * intros Hgt Hbc.
        assert (Hac : greater_than a1 c1 = true).
        { destruct (strict_not_equal b1 c1) eqn:Hbc1.
          - by eapply greater_than_trans.
          - by eapply greater_than_same. }
        by rewrite (greater_than_differs _ _ Hac).
      * destruct (strict_not_equal b1 c1) eqn:Hbc1.
        -- intros _ Hgt.
           pose proof (same_greater_than _ _ _ Hab1 Hgt) as Hac.
           by rewrite (greater_than_differs _ _ Hac).
        -- rewrite (same_trans _ _ _ Hab1 Hbc1). apply greater_than_trans.
Qed.

Lemma isNewerVersion_transitive_witness :
  isNewerVersion (js "v2.0.0") (js "1.5") = true /\
  isNewerVersion (js "1.5") (js "1.x.7") = true /\
  isNewerVersion (js "v2.0.0") (js "1.x.7") = true.
Proof.
  split; [reflexivity|]. split; [reflexivity|].
  apply (isNewerVersion_transitive (js "v2.0.0") (js "1.5") (js "1.x.7"));
    reflexivity.
Defined.

Section Components.

(** [parseInt(n, 10) || 0] is never NaN and never the negative zero. *)
Lemma component_proper n : is_proper (component n) = true.
Proof.
  unfold component. cbv zeta.
  destruct (parseInt n 10) as [| |z| |]; cbn [to_boolean]; try reflexivity.
  destruct (z =? 0); reflexivity.
Qed.

Lemma parse_proper v : Forall (fun x => is_proper x = true) (parse v).
Proof.
  unfold parse. apply Forall_forall. intros x Hx.
  apply list_elem_of_fmap in Hx as (n & -> & _). apply component_proper.
Qed.

Lemma proper_same x y :
  is_proper x = true -> is_proper y = true ->
  strict_not_equal (Num x) (Num y) = false <-> x = y.
Proof.
  destruct x, y; cbn [is_proper]; try done;
    unfold strict_not_equal, number_equal; cbn [finite_part];
    rewrite ?negb_false_iff, ?Z.eqb_eq; intros _ _; split; try done;
    try congruence.
Qed.

Lemma proper_ordered x y :
  is_proper x = true -> is_proper y = true ->
  strict_not_equal (Num x) (Num y) = true ->
  greater_than (Num x) (Num y) = true \/ greater_than (Num y) (Num x) = true.
Proof.
  destruct x, y; cbn [is_proper]; try done;
    unfold strict_not_equal, greater_than, number_equal, number_less_than;
    cbn [to_number finite_part from_option id];
    rewrite ?negb_true_iff, ?Z.eqb_neq, ?Z.ltb_lt; intros _ _ H;
    try done; try (by left); try (by right); lia.
Qed.

Lemma proper_not_greater x : greater_than (Num x) (Num x) = false.
Proof. apply greater_than_irrefl. Qed.

End Components.

(** X2: for two strings of three components or more each, neither is
    newer than the other exactly when their first three parsed components
    are the same numbers: such versions are always comparable. *)
Theorem isNewerVersion_trichotomy :
  forall a b : jsstring,
    (3 <= length (parse a))%nat -> (3 <= length (parse b))%nat ->
    isNewerVersion a b = false /\ isNewerVersion b a = false <->
    take 3 (parse a) = take 3 (parse b).
Proof.
  intros a b Ha Hb. unfold isNewerVersion. cbv zeta.
  pose proof (parse_proper a) as Pa. pose proof (parse_proper b) as Pb.
  destruct (parse a) as [|a0 [|a1 [|a2 ta]]]; cbn in Ha; try lia.
  destruct (parse b) as [|b0 [|b1 [|b2 tb]]]; cbn in Hb; try lia.
  apply Forall_cons in Pa as [A0 Pa]. apply Forall_cons in Pa as [A1 Pa].
  apply Forall_cons in Pa as [A2 _].
  apply Forall_cons in Pb as [B0 Pb]. apply Forall_cons in Pb as [B1 Pb].
  apply Forall_cons in Pb as [B2 _].
  unfold element. cbn [lookup list_lookup take].
  rewrite (strict_not_equal_sym (Num b0)), (strict_not_equal_sym (Num b1)).
  split.
  - intros [Hab Hba].
    destruct (strict_not_equal (Num a0) (Num b0)) eqn:H0.
    { destruct (proper_ordered _ _ A0 B0 H0); congruence. }
    apply (proper_same _ _ A0 B0) in H0 as ->.
    destruct (strict_not_equal (Num a1) (Num b1)) eqn:H1.
    { destruct (proper_ordered _ _ A1 B1 H1); congruence. }
    apply (proper_same _ _ A1 B1) in H1 as ->.
    destruct (strict_not_equal (Num a2) (Num b2)) eqn:H2.
    { destruct (proper_ordered _ _ A2 B2 H2); congruence. }
    apply (proper_same _ _ A2 B2) in H2 as ->. reflexivity.
  - intros [= -> -> ->].
    rewrite (proj2 (proper_same b0 b0 B0 B0) eq_refl).
    rewrite (proj2 (proper_same b1 b1 B1 B1) eq_refl).
    split; apply proper_not_greater.
Qed.

Lemma isNewerVersion_trichotomy_witness :
  (isNewerVersion (js "v1.02.3-rc1") (js "1.2.3.4") = false /\
   isNewerVersion (js "1.2.3.4") (js "v1.02.3-rc1") = false) <->
  take 3 (parse (js "v1.02.3-rc1")) = take 3 (parse (js "1.2.3.4")).
Proof.
  apply (isNewerVersion_trichotomy (js "v1.02.3-rc1") (js "1.2.3.4"));
    vm_compute; lia.
Defined.

Section SplitJoin.

Lemma split_not_empty sep s : split sep s <> [].
Proof.
  destruct s as [|c s]; cbn [split]; [done|].
  destruct (c =? sep)%N; [done|]. by destruct (split sep s).
Qed.

Lemma join_cons_cons sep p q ps :
  join sep (p :: q :: ps) = p ++ sep :: join sep (q :: ps).
Proof. reflexivity. Qed.

Lemma join_cons_head sep c p ps :
  join sep ((c :: p) :: ps) = c :: join sep (p :: ps).
Proof. destruct ps; reflexivity. Qed.

Lemma join_split sep s : join sep (split sep s) = s.
Proof.
  induction s as [|c s IH]; [reflexivity|]. cbn [split].
  destruct (c =? sep)%N eqn:Hc.
  - apply N.eqb_eq in Hc as ->.
    pose proof (split_not_empty sep s) as Hne.
    destruct (split sep s) as [|q ps]; [done|].
    rewrite join_cons_cons, IH. reflexivity.
  - pose proof (split_not_empty sep s) as Hne.
    destruct (split sep s) as [|q ps]; [done|].
    rewrite join_cons_head, IH. reflexivity.
Qed.

Lemma split_pieces_free sep s :
  Forall (fun piece => occurrences sep piece = 0%nat) (split sep s).
Proof.
  induction s as [|c s IH]; cbn [split]; [by repeat constructor|].
  destruct (c =? sep)%N eqn:Hc; [by constructor|].
  destruct (split sep s) as [|q ps]; [repeat constructor; cbn; by rewrite Hc|].
  apply Forall_cons in IH as [Hq Hps]. constructor; [|done].
  cbn. by rewrite Hc.
Qed.

Lemma split_free sep p :
  occurrences sep p = 0%nat -> split sep p = [p].
Proof.
  induction p as [|c p IH]; cbn [split occurrences]; [done|].
  destruct (c =? sep)%N; [done|]. intros H. by rewrite (IH H).
Qed.

Lemma split_free_app sep p rest :
  occurrences sep p = 0%nat ->
  split sep (p ++ sep :: rest) = p :: split sep rest.
Proof.
  induction p as [|c p IH]; cbn [app split occurrences].
  - intros _. by rewrite N.eqb_refl.
  - destruct (c =? sep)%N; [done|]. intros H. by rewrite (IH H).
Qed.

Lemma split_join sep pieces :
  pieces <> [] ->
  Forall (fun piece => occurrences sep piece = 0%nat) pieces ->
  split sep (join sep pieces) = pieces.
Proof.
  induction pieces as [|p ps IH]; [done|]. intros _ Hall.
  apply Forall_cons in Hall as [Hp Hps].
  destruct ps as [|q ps]; [by apply split_free|].
  rewrite join_cons_cons, (split_free_app _ _ _ Hp), IH; done.
Qed.

Lemma length_split sep s : length (split sep s) = S (occurrences sep s).
Proof.
  induction s as [|c s IH]; cbn [split occurrences]; [done|].
  destruct (c =? sep)%N; cbn [length]; [by rewrite IH|].
  pose proof (split_not_empty sep s) as Hne.
  destruct (split sep s) as [|q ps]; [done|]. exact IH.
Qed.

End SplitJoin.

(** X4: splitting loses nothing and invents nothing. Joining the pieces of
    [s.split(sep)] with the separator gives [s] back, no piece contains
    the separator, and a non-empty list of separator-free pieces is what
    splitting their join returns. *)
Theorem split_join_round_trip :
  (forall sep s, join sep (split sep s) = s) /\
  (forall sep s, Forall (fun piece => occurrences sep piece = 0%nat) (split sep s)) /\
  (forall sep pieces,
     pieces <> [] ->
     Forall (fun piece => occurrences sep piece = 0%nat) pieces ->
     split sep (join sep pieces) = pieces).
Proof.
  split; [exact join_split|]. split; [exact split_pieces_free|exact split_join].
Qed.

Lemma split_join_round_trip_witness :
  split DOT (join DOT [js "1"; js ""; js "x3"]) = [js "1"; js ""; js "x3"].
Proof.
  apply (proj2 (proj2 split_join_round_trip)); [discriminate|].
  repeat constructor.
Defined.

(** X5: a binding of the destructuring is [undefined] exactly when the
    string, its leading [v] removed, has fewer dots than the position of
    the binding; so [major] is never [undefined], [minor] is when there is
    no dot and [patch] when there are fewer than two. *)
Theorem undefined_binding :
  forall (v : jsstring) (i : nat),
    element (parse v) i = Undefined <->
    (occurrences DOT (replace_leading_v v) < i)%nat.
Proof.
  intros v i. unfold element.
  assert (Hlen : length (parse v) = S (occurrences DOT (replace_leading_v v))).
  { unfold parse. rewrite length_map. apply length_split. }
  destruct (parse v !! i) as [x|] eqn:Hx.
  - apply lookup_lt_Some in Hx. split; [discriminate|lia].
  - apply lookup_ge_None in Hx. split; [lia|done].
Qed.

Section Suffix.

Lemma prefix_while_digits_app d t :
  forallb is_decimal_digit d = true -> no_digit_ahead t = true ->
  prefix_while (is_radix_digit 10) (d ++ t) = d.
Proof.
  intros Hd Ht. induction d as [|c d IH]; cbn [app prefix_while].
  - destruct t as [|c t]; [reflexivity|]. cbn [prefix_while].
    destruct (is_radix_digit 10 c) eqn:Hc; [|reflexivity].
    apply radix_digit_is_digit in Hc. cbn in Ht. by rewrite Hc in Ht.
  - cbn in Hd. apply andb_true_iff in Hd as [Hc Hd].
    rewrite (digit_is_radix_digit c Hc), (IH Hd). reflexivity.
Qed.

(** Text after the digits of a component is not read. *)
Lemma parseInt_digits_app d t :
  numeric d = true -> no_digit_ahead t = true ->
  parseInt (d ++ t) 10 = parseInt d 10.
Proof.
  intros Hnum Ht. pose proof (numeric_digits d Hnum) as Hall.
  destruct d as [|c d]; [discriminate|].
  assert (Hc : is_decimal_digit c = true)
    by (cbn in Hall; apply andb_true_iff in Hall; tauto).
  pose proof (digit_range c Hc) as Hr.
  unfold parseInt. cbn [app trim_start].
  rewrite (digit_not_white_space c Hc). unfold MINUS, PLUS.
  rewrite (proj2 (N.eqb_neq c 45)), (proj2 (N.eqb_neq c 43)) by lia.
  cbn [orb Z.eqb Z.leb Z.compare Pos.compare Pos.compare_cont Pos.eqb andb].
  change (c :: d ++ t) with ((c :: d) ++ t).
  rewrite (prefix_while_digits_app (c :: d) t Hall Ht).
  rewrite (prefix_while_all _ _ (forallb_digits_radix _ Hall)).
  reflexivity.
Qed.

Lemma component_digits_app d t :
  numeric d = true -> no_digit_ahead t = true ->
  component (d ++ t) = component d.
Proof.
  intros Hnum Ht. unfold component.
  by rewrite (parseInt_digits_app d t Hnum Ht).
Qed.

Lemma split_digits_app d s :
  forallb is_decimal_digit d = true ->
  exists piece pieces,
    split DOT s = piece :: pieces /\
    split DOT (d ++ s) = (d ++ piece) :: pieces.
Proof.
  intros Hd. induction d as [|c d IH]; cbn [app].
  - pose proof (split_not_empty DOT s) as Hne.
    destruct (split DOT s) as [|piece pieces]; [done|]. by exists piece, pieces.
  - cbn in Hd. apply andb_true_iff in Hd as [Hc Hd].
    destruct (IH Hd) as (piece & pieces & Hs & Hds).
    exists piece, pieces. split; [done|]. cbn [split].
    apply digit_range in Hc. unfold DOT at 1.
    rewrite (proj2 (N.eqb_neq c 46)) by lia. by rewrite Hds.
Qed.

Lemma split_head_no_digit c rest :
  is_decimal_digit c = false ->
  exists piece pieces,
    split DOT (c :: rest) = piece :: pieces /\ no_digit_ahead piece = true.
Proof.
  intros Hc. cbn [split]. destruct (c =? DOT)%N.
  - by exists [], (split DOT rest).
  - pose proof (split_not_empty DOT rest) as Hne.
    destruct (split DOT rest) as [|piece pieces]; [done|].
    exists (c :: piece), pieces. split; [done|]. cbn. by rewrite Hc.
Qed.

Lemma parse_numeric_version (prefixed : bool) (major minor patch : jsstring) :
  numeric major = true -> numeric minor = true -> numeric patch = true ->
  parse (version_string prefixed major minor patch) =
  [component major; component minor; component patch].
Proof.
  intros N1 N2 N3. unfold parse, version_string.
  rewrite (replace_leading_v_version _ _ _ N1).
  rewrite (split_digits_dot _ _ (numeric_digits _ N1)).
  rewrite (split_digits_dot _ _ (numeric_digits _ N2)).
  rewrite (split_digits _ (numeric_digits _ N3)). reflexivity.
Qed.

Lemma parse_numeric_version_suffix (prefixed : bool) (major minor patch : jsstring) c rest :
  numeric major = true -> numeric minor = true -> numeric patch = true ->
  is_decimal_digit c = false ->
  exists more,
    parse (version_string prefixed major minor patch ++ c :: rest) =
    component major :: component minor :: component patch :: more.
Proof.
  intros N1 N2 N3 Hc.
  assert (Happ : version_string prefixed major minor patch ++ c :: rest =
                 (if prefixed then [LOWER_V] else []) ++
                 major ++ DOT :: minor ++ DOT :: patch ++ c :: rest).
  { unfold version_string. rewrite <- !app_assoc. cbn [app].
    rewrite <- !app_assoc. reflexivity. }
  rewrite Happ. unfold parse.
  rewrite (replace_leading_v_version _ _ _ N1).
  rewrite (split_digits_dot _ _ (numeric_digits _ N1)).
  rewrite (split_digits_dot _ _ (numeric_digits _ N2)).
  destruct (split_head_no_digit c rest Hc) as (piece & pieces & Hs & Hp).
  destruct (split_digits_app patch (c :: rest) (numeric_digits _ N3))
    as (piece' & pieces' & Hs' & ->).
  rewrite Hs in Hs'. injection Hs' as <- <-.
  cbn [map]. rewrite (component_digits_app patch piece N3 Hp). by eexists.
Qed.

End Suffix.

(** X3: whatever follows the third numeric component is ignored: a
    pre-release or build suffix ([1.2.3-rc1]), a fourth component
    ([1.2.3.4]) or any other text that does not start with a digit. The
    string compares, on either side, as the three-component version it
    starts with. *)
Theorem isNewerVersion_ignores_suffix :
  forall (prefixed : bool) (major minor patch : jsstring) (c : N) (rest b : jsstring),
    numeric major = true -> numeric minor = true -> numeric patch = true ->
    is_decimal_digit c = false ->
    isNewerVersion (version_string prefixed major minor patch ++ c :: rest) b =
      isNewerVersion (version_string prefixed major minor patch) b /\
    isNewerVersion b (version_string prefixed major minor patch ++ c :: rest) =
      isNewerVersion b (version_string prefixed major minor patch).
Proof.
  intros prefixed major minor patch c rest b N1 N2 N3 Hc.
  destruct (parse_numeric_version_suffix prefixed major minor patch c rest N1 N2 N3 Hc)
    as (more & Hsuffix).
  pose proof (parse_numeric_version prefixed major minor patch N1 N2 N3) as Hplain.
  unfold isNewerVersion. cbv zeta. rewrite Hsuffix, Hplain.
  split; reflexivity.
Qed.

Lemma isNewerVersion_ignores_suffix_witness :
  isNewerVersion (version_string true (js "1") (js "2") (js "3") ++ js "-rc1")
                 (js "1.2.3") =
    isNewerVersion (version_string true (js "1") (js "2") (js "3")) (js "1.2.3") /\
  isNewerVersion (js "1.2.3")
                 (version_string true (js "1") (js "2") (js "3") ++ js "-rc1") =
    isNewerVersion (js "1.2.3") (version_string true (js "1") (js "2") (js "3")).
Proof.
  apply (isNewerVersion_ignores_suffix true (js "1") (js "2") (js "3")
           45%N (js "rc1") (js "1.2.3")); reflexivity.
Defined.

Section Signs.

Lemma number_of_safe_negative m :
  0 < m < SAFE_LIMIT -> number_of_integer (- m) = Fin (- m).
Proof.
  intros [Hpos Hlt]. pose proof safe_limit_finite as Hfin.
  unfold number_of_integer, round_to_double. fold SAFE_LIMIT.
  rewrite (Z.abs_neq (- m)) by lia. rewrite Z.opp_involutive.
  rewrite (proj2 (Z.ltb_lt m SAFE_LIMIT)) by assumption.
  rewrite (proj2 (Z.leb_gt (2 ^ 1024) m)) by lia.
  rewrite (Z.sgn_neg (- m)) by lia. f_equal; lia.
Qed.

Lemma component_signed (negative : bool) d :
  numeric d = true -> decimal d < SAFE_LIMIT ->
  component ((if negative then MINUS else PLUS) :: d) =
  Fin (if negative then - decimal d else decimal d).
Proof.
  intros Hnum Hlt. pose proof (numeric_digits d Hnum) as Hall.
  pose proof (decimal_nonneg d Hall) as Hnn.
  unfold component. cbv zeta. unfold parseInt.
  assert (Hws : is_white_space (if negative then MINUS else PLUS) = false)
    by (by destruct negative).
  cbn [trim_start]. rewrite Hws.
  assert (Hsign : (((if negative then MINUS else PLUS) =? MINUS)
                   || ((if negative then MINUS else PLUS) =? PLUS))%N = true)
    by (by destruct negative).
  rewrite Hsign.
  assert (Hneg : ((if negative then MINUS else PLUS) =? MINUS)%N = negative)
    by (by destruct negative).
  rewrite Hneg.
  cbn [orb Z.eqb Z.leb Z.compare Pos.compare Pos.compare_cont Pos.eqb andb].
  rewrite (prefix_while_all _ _ (forallb_digits_radix _ Hall)).
  destruct d as [|c d]; [discriminate|].
  rewrite (math_int_decimal _ Hall).
  destruct (Z.eqb_spec (decimal (c :: d)) 0) as [Hz|Hz].
  - rewrite Hz. by destruct negative.
  - destruct negative.
    + rewrite number_of_safe_negative by lia. cbn [to_boolean].
      rewrite (proj2 (Z.eqb_neq _ 0)) by lia. reflexivity.
    + rewrite number_of_safe_integer by lia. cbn [to_boolean].
      rewrite (proj2 (Z.eqb_neq _ 0) Hz). reflexivity.
Qed.

Lemma component_white_space w s :
  is_white_space w = true -> component (w :: s) = component s.
Proof.
  intros Hw. unfold component, parseInt. cbn [trim_start]. by rewrite Hw.
Qed.

End Signs.

(** X6: a component may carry a sign and leading white space. Within the
    exact range, a minus sign gives the negative of the digits' value (and
    zero for [-0]), a plus sign changes nothing, and white space before
    the component is skipped. *)
Theorem component_sign_and_space :
  (forall d, safe_component d ->
     component (MINUS :: d) = Fin (- decimal d) /\
     component (PLUS :: d) = Fin (decimal d)) /\
  (forall w s, is_white_space w = true -> component (w :: s) = component s).
Proof.
  split; [|exact component_white_space].
  intros d [Hnum Hlt]. split.
  - exact (component_signed true d Hnum Hlt).
  - exact (component_signed false d Hnum Hlt).
Qed.

Lemma component_sign_and_space_witness :
  (component (MINUS :: js "12") = Fin (- decimal (js "12")) /\
   component (PLUS :: js "12") = Fin (decimal (js "12"))) /\
  component (32%N :: js "-12") = component (js "-12").
Proof.
  split.
  - apply (proj1 component_sign_and_space). split; vm_compute; reflexivity.
  - apply (proj2 component_sign_and_space). reflexivity.
Defined.

(** * Further properties of the hook *)

Section Payloads.

(** The two steps of a check whose response is ok, up to the reading of
    the payload. *)
Lemma run_ok_payload h id q resp data :
  requests h !! id = Some q -> stage q = Fetching -> aborted q = false ->
  ok resp = true ->
  run h [FetchSettles id (Fulfilled resp); BodySettles id (Fulfilled data)] =
  Some (body_settles id (at_stage ReadingBody q) (Fulfilled data)
          (advance id ReadingBody None h)).
Proof.
  intros Hq Hs Ha Hok. cbn [run step].
  rewrite Hq, Hs. unfold may_settle at 1. rewrite Ha. cbn [is_abort_error eqb].
  unfold fetch_settles, check_ok. rewrite Hok.
  cbn [advance requests]. rewrite list_lookup_alter_eq, Hq.
  cbn [fmap option_fmap option_map at_stage stage].
  unfold may_settle. cbn [aborted at_stage is_abort_error]. rewrite Ha.
  reflexivity.
Qed.

Lemma step_payload h id q data :
  requests h !! id = Some q -> stage q = ReadingBody -> aborted q = false ->
  step h (BodySettles id (Fulfilled data)) =
  Some (body_settles id q (Fulfilled data) h).
Proof.
  intros Hq Hs Ha. cbn [step]. rewrite Hq, Hs.
  unfold may_settle. rewrite Ha. reflexivity.
Qed.

End Payloads.

(** X7: when the feed answers with a status from 200 to 299 and an object
    whose [tag_name] is a string, the check ends with that string as
    [latestVersion], the [currentVersion] of the run, [updateAvailable]
    equal to [isNewerVersion(tag, currentVersion)] (false when
    [currentVersion] is null), [loading = false] and [error = null],
    whatever the state was before. *)
Theorem successful_check_state :
  forall h id q resp members tag,
    requests h !! id = Some q -> stage q = Fetching -> aborted q = false ->
    ok resp = true ->
    member (js "tag_name") members = Some (JString tag) ->
    exists h',
      run h [FetchSettles id (Fulfilled resp);
             BodySettles id (Fulfilled (JObject members))] = Some h' /\
      state h' =
        {| latestVersion := JString tag;
           currentVersion := version q;
           updateAvailable := match version q with
                              | Some c => isNewerVersion tag c
                              | None => false
                              end;
           loading := false;
           error := None |}.
Proof.
  intros h id q resp members tag Hq Hs Ha Hok Hmem.
  rewrite (run_ok_payload h id q resp _ Hq Hs Ha Hok).
  eexists. split; [reflexivity|].
  unfold body_settles, resolved_state, tag_name. cbn [version at_stage].
  rewrite Hmem. by destruct (version q).
Qed.

Lemma successful_check_state_witness :
  exists h',
    run (mount (Some (js "1.3.0")))
        [FetchSettles 0 (Fulfilled OK_RESPONSE);
         BodySettles 0 (Fulfilled (release "v1.4.0"))] = Some h' /\
    state h' =
      {| latestVersion := JString (js "v1.4.0");
         currentVersion := Some (js "1.3.0");
         updateAvailable := isNewerVersion (js "v1.4.0") (js "1.3.0");
         loading := false;
         error := None |}.
Proof.
  apply (successful_check_state (mount (Some (js "1.3.0"))) 0
           (fresh_request (Some (js "1.3.0"))) OK_RESPONSE
           [(js "tag_name", JString (js "v1.4.0"))] (js "v1.4.0"));
    reflexivity.
Defined.

(** X8: a payload that is the JSON literal [null] makes the read of
    [data.tag_name] throw a TypeError, which the [catch] block reports:
    the check ends as a failure, [loading = false], [error] set, the
    version fields as they were. *)
Theorem null_payload_fails :
  forall h id q,
    requests h !! id = Some q -> stage q = ReadingBody -> aborted q = false ->
    exists h' e,
      step h (BodySettles id (Fulfilled JNull)) = Some h' /\
      name e = js "TypeError" /\
      state h' = failed_state (state h) e /\
      writes h' = S (writes h).
Proof.
  intros h id q Hq Hs Ha. rewrite (step_payload h id q _ Hq Hs Ha).
  eexists.
  exists (type_error "Cannot read properties of null (reading 'tag_name')").
  split; [reflexivity|]. split; [reflexivity|].
  unfold body_settles, resolved_state, tag_name. cbn.
  rewrite catch_other_error by exact type_error_is_not_abort_error.
  split; reflexivity.
Qed.

Lemma null_payload_fails_witness :
  exists h' e,
    step (advance 0 ReadingBody None (mount (Some (js "1.3.0"))))
         (BodySettles 0 (Fulfilled JNull)) = Some h' /\
    name e = js "TypeError" /\
    state h' = failed_state (initial_state (Some (js "1.3.0"))) e /\
    writes h' = 1%nat.
Proof.
  apply (null_payload_fails (advance 0 ReadingBody None (mount (Some (js "1.3.0"))))
           0%nat (at_stage ReadingBody (fresh_request (Some (js "1.3.0")))));
    reflexivity.
Defined.

(** X9: a [tag_name] that is neither a string nor [null] (a number, a
    boolean, an array, an object) is stored as [latestVersion] with
    [updateAvailable = false] when the run's [currentVersion] is null, and
    makes the check fail with a TypeError when it is a string, because
    [isNewerVersion] is then called on a value without [replace]. *)
Theorem other_tag_name :
  forall h id q members v,
    requests h !! id = Some q -> stage q = ReadingBody -> aborted q = false ->
    member (js "tag_name") members = Some v -> is_other_value v = true ->
    exists h',
      step h (BodySettles id (Fulfilled (JObject members))) = Some h' /\
      match version q with
      | None =>
          state h' = {| latestVersion := v;
                        currentVersion := None;
                        updateAvailable := false;
                        loading := false;
                        error := None |}
      | Some _ =>
          exists e, name e = js "TypeError" /\ state h' = failed_state (state h) e
      end.
Proof.
  intros h id q members v Hq Hs Ha Hmem Hv.
  rewrite (step_payload h id q _ Hq Hs Ha).
  eexists. split; [reflexivity|].
  unfold body_settles, resolved_state, tag_name. rewrite Hmem.
  destruct (version q) as [c|];
    destruct v; try discriminate; cbn;
    try reflexivity;
    rewrite catch_other_error by exact type_error_is_not_abort_error;
    exists (type_error "v.replace is not a function"); split; reflexivity.
Qed.

Lemma other_tag_name_witness :
  exists h',
    step (advance 0 ReadingBody None (mount None))
         (BodySettles 0 (Fulfilled (JObject [(js "tag_name", JNumber (js "5"))])))
    = Some h' /\
    state h' = {| latestVersion := JNumber (js "5");
                  currentVersion := None;
                  updateAvailable := false;
                  loading := false;
                  error := None |}.
Proof.
  apply (other_tag_name (advance 0 ReadingBody None (mount None)) 0%nat
           (at_stage ReadingBody (fresh_request None))
           [(js "tag_name", JNumber (js "5"))] (JNumber (js "5")));
    reflexivity.
Defined.

(** X10: at any time at most one effect run is neither aborted nor
    finished, it is the latest one, and after the unmount there is
    none. *)
Theorem at_most_one_live_request :
  forall h, reachable h ->
    (forall i q, requests h !! i = Some q -> dead q = false ->
       S i = length (requests h)) /\
    (forall i j qi qj,
       requests h !! i = Some qi -> requests h !! j = Some qj ->
       dead qi = false -> dead qj = false -> i = j) /\
    (mounted h = false -> Forall (fun q => dead q = true) (requests h)).
Proof.
  intros h Hlive%reachable_one_live. repeat split.
  - intros i q Hq Hd. by destruct (Hlive i q Hq Hd).
  - intros i j qi qj Hi Hj Hdi Hdj.
    destruct (Hlive i qi Hi Hdi) as [_ Ei].
    destruct (Hlive j qj Hj Hdj) as [_ Ej]. lia.
  - intros Hm. apply Forall_lookup_2. intros i q Hq.
    destruct (dead q) eqn:Hd; [done|].
    destruct (Hlive i q Hq Hd) as [Hm' _]. congruence.
Qed.

Lemma at_most_one_live_request_witness :
  Forall (fun q => dead q = true)
    (requests (unmount (render (Some (js "2.0.0")) (mount (Some (js "1.0.0")))))).
Proof.
  refine (proj2 (proj2 (at_most_one_live_request
                          (unmount (render (Some (js "2.0.0"))
                                      (mount (Some (js "1.0.0"))))) _)) _).
  - exists (Some (js "1.0.0")), [Render (Some (js "2.0.0")); Unmount]. reflexivity.
  - reflexivity.
Defined.

Section Counting.

Lemma run_requests trace : forall h h',
  run h trace = Some h' ->
  length (requests h') = (length (requests h) + activations (rendered h) trace)%nat.
Proof.
  induction trace as [|ev trace IH]; intros h h'; cbn [run activations].
  - intros [= <-]. lia.
  - destruct (step h ev) as [h1|] eqn:Hstep; [|discriminate].
    intros Hrun. rewrite (IH _ _ Hrun).
    destruct ev as [cv| |id r|id r]; cbn [step] in Hstep.
    + destruct (mounted h); [|discriminate]. injection Hstep as <-.
      unfold render. case_bool_decide as Hcv; [done|].
      cbn [requests rendered]. rewrite length_app, length_cleanup. cbn. lia.
    + destruct (mounted h); [|discriminate]. injection Hstep as <-.
      cbn [unmount requests rendered]. by rewrite length_cleanup.
    + destruct (requests h !! id) as [q|]; [|discriminate].
      destruct (stage q); try discriminate.
      destruct (may_settle q r); [|discriminate]. injection Hstep as <-.
      unfold fetch_settles. destruct r as [resp|e]; [destruct (check_ok resp)|];
        cbn [advance requests rendered]; by rewrite length_alter.
    + destruct (requests h !! id) as [q|]; [|discriminate].
      destruct (stage q); try discriminate.
      destruct (may_settle q r); [|discriminate]. injection Hstep as <-.
      unfold body_settles.
      destruct r as [data|e]; [destruct (resolved_state (version q) data)|];
        cbn [advance requests rendered]; by rewrite length_alter.
Qed.

End Counting.

(** X11: over the whole life of an instance the hook issues one request
    for the mount and one for every render that changes [currentVersion],
    and no other: a render with the same [currentVersion], a completion or
    the unmount issues none. *)
Theorem one_request_per_activation :
  forall cv trace h,
    run (mount cv) trace = Some h ->
    length (requests h) = S (activations cv trace).
Proof.
  intros cv trace h Hrun. by rewrite (run_requests trace _ _ Hrun).
Qed.

Lemma one_request_per_activation_witness :
  length (requests (unmount (render (Some (js "2.0.0")) (mount (Some (js "1.0.0"))))))
  = S (activations (Some (js "1.0.0"))
         [Render (Some (js "1.0.0")); Render (Some (js "2.0.0"));
          Render (Some (js "2.0.0")); Unmount]).
Proof.
  apply (one_request_per_activation (Some (js "1.0.0"))
           [Render (Some (js "1.0.0")); Render (Some (js "2.0.0"));
            Render (Some (js "2.0.0")); Unmount]).
  vm_compute. reflexivity.
Defined.

Section Loading.

Lemma outcome_loading h q update p :
  outcome h q update p ->
  match update with
  | Some s => loading s = false
  | None => True
  end.
Proof.
  intros [?|? ?|e ? ?|data s ? ? Hres]; try done.
  by apply resolved_state_normal in Hres as (? & ? & _ & _ & ->).
Qed.

Lemma step_loading_false h ev h' :
  step h ev = Some h' -> loading (state h) = false -> loading (state h') = false.
Proof.
  intros Hstep Hl. destruct (is_settle ev) eqn:Hev.
  - destruct (step_settle _ _ _ Hstep Hev)
      as (id & q & update & p & _ & _ & _ & Hout & ->).
    apply outcome_loading in Hout. cbn. by destruct update.
  - by destruct (step_lifecycle _ _ _ Hstep Hev) as (_ & -> & _).
Qed.

(** Until the first [setState] the state is the one [useState] was given
    at the mount; after it [loading] is false. *)
Lemma run_first_write cv trace : forall h h',
  run h trace = Some h' ->
  (if Nat.eqb (writes h) 0 then state h = initial_state cv
   else loading (state h) = false) ->
  (if Nat.eqb (writes h') 0 then state h' = initial_state cv
   else loading (state h') = false).
Proof.
  induction trace as [|ev trace IH]; intros h h'; cbn [run].
  - by intros [= <-].
  - destruct (step h ev) as [h1|] eqn:Hstep; [|discriminate].
    intros Hrun Hinv. apply (IH _ _ Hrun). clear IH Hrun.
    destruct (is_settle ev) eqn:Hev.
    + destruct (step_settle _ _ _ Hstep Hev)
        as (id & q & update & p & _ & _ & _ & Hout & ->).
      apply outcome_loading in Hout. cbn. destruct update as [s|]; cbn; done.
    + by destruct (step_lifecycle _ _ _ Hstep Hev) as (_ & -> & ->).
Qed.

End Loading.

(** X12: [loading] is true exactly as long as the instance has made no
    [setState] call since its mount, re-activations included; and until
    then the whole state is the one set at the mount, with the
    [currentVersion] of the mount. *)
Theorem loading_until_first_write :
  forall cv trace h,
    run (mount cv) trace = Some h ->
    (loading (state h) = true <-> writes h = 0%nat) /\
    (writes h = 0%nat -> state h = initial_state cv).
Proof.
  intros cv trace h Hrun.
  pose proof (run_first_write cv trace (mount cv) h Hrun eq_refl) as Hinv.
  destruct (writes h) as [|n]; cbn in Hinv.
  - rewrite Hinv. by repeat split.
  - rewrite Hinv. repeat split; discriminate.
Qed.

Lemma loading_until_first_write_witness :
  (loading (state (render (Some (js "2.0.0")) (mount (Some (js "1.0.0"))))) = true <->
   writes (render (Some (js "2.0.0")) (mount (Some (js "1.0.0")))) = 0%nat) /\
  (writes (render (Some (js "2.0.0")) (mount (Some (js "1.0.0")))) = 0%nat ->
   state (render (Some (js "2.0.0")) (mount (Some (js "1.0.0"))))
   = initial_state (Some (js "1.0.0"))).
Proof.
  apply (loading_until_first_write (Some (js "1.0.0")) [Render (Some (js "2.0.0"))]).
  reflexivity.
Defined.

(** X13: once [loading] is false it stays false, whatever happens next: a
    re-activation starts a new request without setting [loading] back to
    true. *)
Theorem loading_never_returns :
  forall trace h h',
    run h trace = Some h' -> loading (state h) = false ->
    loading (state h') = false.
Proof.
  induction trace as [|ev trace IH]; intros h h'; cbn [run].
  - by intros [= <-].
  - destruct (step h ev) as [h1|] eqn:Hstep; [|discriminate].
    intros Hrun Hl. apply (IH _ _ Hrun). by eapply step_loading_false.
Qed.

Lemma loading_never_returns_witness :
  loading (state (render (Some (js "2.0.0"))
                    (advance 0 Finished
                       (Some (failed_state (initial_state (Some (js "1.0.0")))
                                           NETWORK_ERROR))
                       (mount (Some (js "1.0.0")))))) = false.
Proof.
  apply (loading_never_returns
           [Render (Some (js "2.0.0"))]
           (advance 0 Finished
              (Some (failed_state (initial_state (Some (js "1.0.0"))) NETWORK_ERROR))
              (mount (Some (js "1.0.0")))));
    reflexivity.
Defined.

Section Writes.

Lemma finished_runs_cons q rs :
  finished_runs (q :: rs) =
  ((if is_finished q then 1 else 0) + finished_runs rs)%nat.
Proof. unfold finished_runs. cbn [List.filter]. by destruct (is_finished q). Qed.

Lemma finished_runs_alter f i rs :
  (forall q, is_finished (f q) = is_finished q) ->
  finished_runs (alter f i rs) = finished_runs rs.
Proof.
  intros Hf. revert i. induction rs as [|q rs IH]; intros [|i]; cbn [alter list_alter];
    try done; rewrite !finished_runs_cons; [by rewrite Hf|by rewrite IH].
Qed.

Lemma finished_runs_at_stage p rs : forall id q,
  rs !! id = Some q -> stage q <> Finished ->
  finished_runs (alter (at_stage p) id rs) =
  (finished_runs rs + match p with Finished => 1 | _ => 0 end)%nat.
Proof.
  induction rs as [|q0 rs IH]; intros [|id] q; cbn [alter list_alter]; try done.
  - intros [= ->] Hs. rewrite !finished_runs_cons.
    unfold is_finished. cbn [at_stage stage].
    destruct (stage q), p; cbn; try congruence; lia.
  - intros Hq Hs. rewrite !finished_runs_cons, (IH id q Hq Hs). lia.
Qed.

Lemma finished_runs_bound rs : (finished_runs rs <= length rs)%nat.
Proof.
  induction rs as [|q rs IH]; [done|]. rewrite finished_runs_cons. cbn [length].
  destruct (is_finished q); lia.
Qed.

Lemma finished_runs_started rs cv :
  finished_runs (cleanup rs ++ [fresh_request cv]) = finished_runs rs.
Proof.
  assert (Happ : finished_runs (cleanup rs ++ [fresh_request cv]) =
                 (finished_runs (cleanup rs) + finished_runs [fresh_request cv])%nat).
  { unfold finished_runs. by rewrite List.filter_app, length_app. }
  rewrite Happ. unfold cleanup. rewrite finished_runs_alter by done.
  change (finished_runs [fresh_request cv]) with 0%nat. lia.
Qed.

Lemma step_writes h ev h' :
  step h ev = Some h' ->
  (writes h <= finished_runs (requests h))%nat ->
  (writes h' <= finished_runs (requests h'))%nat.
Proof.
  intros Hstep Hle. destruct (is_settle ev) eqn:Hev.
  - destruct (step_settle _ _ _ Hstep Hev)
      as (id & q & update & p & _ & Hq & Hs & Hout & ->).
    cbn [advance writes requests].
    rewrite (finished_runs_at_stage p _ id q Hq Hs).
    destruct Hout; lia.
  - destruct ev as [cv| | |]; cbn in Hstep, Hev; try discriminate;
      destruct (mounted h); try discriminate; injection Hstep as <-.
    + unfold render. case_bool_decide; [done|]. cbn [writes requests].
      by rewrite finished_runs_started.
    + cbn [unmount writes requests]. unfold cleanup.
      by rewrite finished_runs_alter.
Qed.

Lemma run_writes trace : forall h h',
  run h trace = Some h' ->
  (writes h <= finished_runs (requests h))%nat ->
  (writes h' <= finished_runs (requests h'))%nat.
Proof.
  induction trace as [|ev trace IH]; intros h h'; cbn [run].
  - by intros [= <-].
  - destruct (step h ev) as [h1|] eqn:Hstep; [|discriminate].
    intros Hrun Hle. apply (IH _ _ Hrun). by eapply step_writes.
Qed.

End Writes.

(** X14: an effect run calls [setState] at most once, and only when its
    [checkVersion] call returns: the number of state writes of an instance
    never exceeds the number of its finished runs, hence the number of
    requests it issued. *)
Theorem one_write_per_run :
  forall h, reachable h ->
    (writes h <= finished_runs (requests h))%nat /\
    (writes h <= length (requests h))%nat.
Proof.
  intros h (cv & trace & Hrun).
  assert (Hle : (writes h <= finished_runs (requests h))%nat).
  { apply (run_writes trace (mount cv) h Hrun). cbn. lia. }
  split; [done|]. pose proof (finished_runs_bound (requests h)). lia.
Qed.

Lemma one_write_per_run_witness :
  (writes (advance 0 Finished None (unmount (mount (Some (js "1.3.0")))))
   <= finished_runs (requests (advance 0 Finished None
                                 (unmount (mount (Some (js "1.3.0")))))))%nat /\
  (writes (advance 0 Finished None (unmount (mount (Some (js "1.3.0")))))
   <= length (requests (advance 0 Finished None
                          (unmount (mount (Some (js "1.3.0")))))))%nat.
Proof.
  apply (one_write_per_run
           (advance 0 Finished None (unmount (mount (Some (js "1.3.0")))))).
  exists (Some (js "1.3.0")), [Unmount; FetchSettles 0 (Rejected ABORT_ERROR)].
  vm_compute. reflexivity.
Defined.

Section Provenance.

Lemma versions_alter (f : request -> request) (i : nat) (rs : list request) :
  (forall q, version (f q) = version q) ->
  version <$> alter f i rs = version <$> rs.
Proof.
  intros Hf. revert i. induction rs as [|q rs IH]; intros [|i];
    cbn [alter list_alter fmap list_fmap]; try done.
  - by rewrite Hf.
  - f_equal. apply IH.
Qed.

Lemma step_provenance h ev h' :
  step h ev = Some h' ->
  currentVersion (state h) ∈ (version <$> requests h) ->
  currentVersion (state h') ∈ (version <$> requests h').
Proof.
  intros Hstep Hin. destruct (is_settle ev) eqn:Hev.
  - destruct (step_settle _ _ _ Hstep Hev)
      as (n & q & update & p & _ & Hq & Hs & Hout & ->).
    cbn [advance state requests]. rewrite versions_alter by done.
    destruct Hout as [?|? ?|e ? ?|data s ? ? Hres]; cbn [from_option id]; try done.
    apply resolved_state_normal in Hres as (? & ? & _ & _ & ->).
    cbn [currentVersion]. apply list_elem_of_fmap. exists q. split; [done|].
    by eapply list_elem_of_lookup_2.
  - destruct ev as [cv| | |]; cbn in Hstep, Hev; try discriminate;
      destruct (mounted h); try discriminate; injection Hstep as <-.
    + unfold render. case_bool_decide; [done|]. cbn [state requests].
      rewrite fmap_app. apply elem_of_app. left. unfold cleanup.
      by rewrite versions_alter.
    + cbn [unmount state requests]. unfold cleanup. by rewrite versions_alter.
Qed.

Lemma run_provenance trace : forall h h',
  run h trace = Some h' ->
  currentVersion (state h) ∈ (version <$> requests h) ->
  currentVersion (state h') ∈ (version <$> requests h').
Proof.
  induction trace as [|ev trace IH]; intros h h'; cbn [run].
  - by intros [= <-].
  - destruct (step h ev) as [h1|] eqn:Hstep; [|discriminate].
    intros Hrun Hin. apply (IH _ _ Hrun). by eapply step_provenance.
Qed.

End Provenance.

(** X15: the [currentVersion] field of the state is always a value the
    caller passed: the [currentVersion] of the mount or of a later
    activation of the same instance. *)
Theorem currentVersion_provenance :
  forall h, reachable h ->
    exists i q, requests h !! i = Some q /\ currentVersion (state h) = version q.
Proof.
  intros h (cv & trace & Hrun).
  assert (Hin : currentVersion (state h) ∈ (version <$> requests h)).
  { apply (run_provenance trace (mount cv) h Hrun). cbn. apply list_elem_of_here. }
  apply list_elem_of_fmap in Hin as (q & Hv & Hq).
  apply list_elem_of_lookup_1 in Hq as (i & Hq). by exists i, q.
Qed.

Lemma currentVersion_provenance_witness :
  exists i q,
    requests (render (Some (js "2.0.0")) (mount (Some (js "1.0.0")))) !! i = Some q /\
    currentVersion (state (render (Some (js "2.0.0")) (mount (Some (js "1.0.0")))))
    = version q.
Proof.
  apply (currentVersion_provenance
           (render (Some (js "2.0.0")) (mount (Some (js "1.0.0"))))).
  exists (Some (js "1.0.0")), [Render (Some (js "2.0.0"))]. reflexivity.
Defined.

(** * Strings without digits *)

Section Zeros.

Lemma zeros_three l :
  Forall (fun x => x = Fin 0) l -> (3 <= length l)%nat ->
  element l 0 = Num (Fin 0) /\ element l 1 = Num (Fin 0) /\
  element l 2 = Num (Fin 0).
Proof.
  intros Hall Hlen. destruct l as [|x0 [|x1 [|x2 l]]]; cbn in Hlen; try lia.
  apply Forall_cons in Hall as [-> Hall]. apply Forall_cons in Hall as [-> Hall].
  apply Forall_cons in Hall as [-> _]. by repeat split.
Qed.

End Zeros.

(** C9 at the input where it fails: [abc] has one component only, so it
    parses to one zero and its [minor] and [patch] bindings are
    [undefined]; [0.1.0] is therefore not reported newer than [abc],
    while it is newer than [0.0.0]. A string without digits compares as
    [0.0.0] does, on either side, only when it has three components or
    more. The example of the claim holds: [abc] is not newer than
    [1.0.0], and [1.0.0] is newer than [abc]. *)
Theorem isNewerVersion_non_numeric :
  (forall s b : jsstring,
     has_no_digit s = true ->
     (2 <= occurrences DOT (replace_leading_v s))%nat ->
     isNewerVersion s b = isNewerVersion (js "0.0.0") b /\
     isNewerVersion b s = isNewerVersion b (js "0.0.0")) /\
  parse (js "abc") = [Fin 0] /\
  isNewerVersion (js "0.1.0") (js "abc") = false /\
  isNewerVersion (js "0.1.0") (js "0.0.0") = true /\
  isNewerVersion (js "abc") (js "1.0.0") = false /\
  isNewerVersion (js "1.0.0") (js "abc") = true.
Proof.
  split; [|repeat split; vm_compute; reflexivity].
  intros s b Hs Hdots.
  assert (Hlen : (3 <= length (parse s))%nat).
  { unfold parse. rewrite length_map, length_split. lia. }
  destruct (zeros_three (parse s) (parse_no_digit s Hs) Hlen) as (E0 & E1 & E2).
  assert (Z0 : element (parse (js "0.0.0")) 0 = Num (Fin 0)) by reflexivity.
  assert (Z1 : element (parse (js "0.0.0")) 1 = Num (Fin 0)) by reflexivity.
  assert (Z2 : element (parse (js "0.0.0")) 2 = Num (Fin 0)) by reflexivity.
  unfold isNewerVersion. cbv zeta. rewrite E0, E1, E2, Z0, Z1, Z2.
  by split.
Qed.

Lemma isNewerVersion_non_numeric_witness :
  isNewerVersion (js "a.b.c") (js "0.1.0") = isNewerVersion (js "0.0.0") (js "0.1.0") /\
  isNewerVersion (js "0.1.0") (js "a.b.c") = isNewerVersion (js "0.1.0") (js "0.0.0").
Proof.
  apply (proj1 isNewerVersion_non_numeric (js "a.b.c") (js "0.1.0")).
  - reflexivity.
  - vm_compute. lia.
Defined.
